(** * Commit message validator of go-sentinel-cli

    A shallow embedding of [scripts/validate_commit_msg.py]
    (class [CommitMessageValidator]) and the properties of its validation
    pipeline.

    Data model.  A Python [str] is a sequence of Unicode code points; it is
    modelled as [list N], one number per code point, so that [len], indexing
    and the regular-expression engine see the same units as the interpreter.
    The two buffers [self.errors] and [self.warnings] are a record threaded
    through a small state-and-exception monad; an operation that can raise in
    Python ([lines[0]], [description[0]], a method call on [None]) raises in
    the model.

    The case tables of the Unicode database belong to the interpreter, not to
    the repository.  Their ASCII part is written out; what they say about
    code points from 128 on is the class [UnicodeData]. *)

From Stdlib Require Import Strings.String Strings.Ascii.
From Stdlib Require Import List Bool Arith NArith ZArith Lia.
From Stdlib Require Import Numbers.DecimalString.
Import ListNotations.

Set Implicit Arguments.

(** ** Python strings *)

Definition char := N.
Bind Scope N_scope with char.
Definition str := list char.

(** A literal of the source, one code point per character (the literals of
    the source that are written this way are ASCII). *)
Definition lit (s : string) : str :=
  map N_of_ascii (list_ascii_of_string s).

Coercion lit : string >-> str.

Definition chr (s : string) : char :=
  match s with
  | String a _ => N_of_ascii a
  | EmptyString => 0%N
  end.

Definition NL : char := 10%N.

Fixpoint str_eqb (a b : str) : bool :=
  match a, b with
  | [], [] => true
  | x :: a', y :: b' => N.eqb x y && str_eqb a' b'
  | _, _ => false
  end.

(** [x in xs] for a list, a set or the keys of a dict of strings. *)
Definition mem (x : str) (xs : list str) : bool := existsb (str_eqb x) xs.

Definition is_empty {A} (l : list A) : bool :=
  match l with [] => true | _ => false end.

Definition in_range (lo hi c : char) : bool := (N.leb lo c && N.leb c hi)%bool.

(** [Py_UNICODE_ISSPACE]: the characters [str.strip()] and [str.split()]
    treat as whitespace. *)
Definition isspace (c : char) : bool :=
  (in_range 9 13 c || in_range 28 32 c || N.eqb c 133 || N.eqb c 160
   || N.eqb c 5760 || in_range 8192 8202 c || N.eqb c 8232 || N.eqb c 8233
   || N.eqb c 8239 || N.eqb c 8287 || N.eqb c 12288)%N%bool.

Fixpoint lstrip (s : str) : str :=
  match s with
  | c :: s' => if isspace c then lstrip s' else s
  | [] => []
  end.

Definition rstrip (s : str) : str := rev (lstrip (rev s)).

Definition strip (s : str) : str := rstrip (lstrip s).

(** [s.split(sep)] for a one-character separator: never an empty list. *)
Fixpoint split (sep : char) (s : str) : list str :=
  match s with
  | [] => [[]]
  | c :: s' =>
      if N.eqb c sep then [] :: split sep s'
      else match split sep s' with
           | l :: ls => (c :: l) :: ls
           | [] => [[c]]
           end
  end.

(** [s.split()]: the maximal runs of non-whitespace characters. *)
Fixpoint split_ws (s : str) : list str :=
  match s with
  | [] => []
  | c :: s' =>
      if isspace c then split_ws s'
      else match s' with
           | [] => [[c]]
           | c' :: _ =>
               if isspace c' then [c] :: split_ws s'
               else match split_ws s' with
                    | w :: ws => (c :: w) :: ws
                    | [] => [[c]]
                    end
           end
  end.

Fixpoint startswith (s p : str) {struct p} : bool :=
  match p, s with
  | [], _ => true
  | x :: p', y :: s' => N.eqb x y && startswith s' p'
  | _ :: _, [] => false
  end.

Definition endswith (s p : str) : bool := startswith (rev s) (rev p).

(** [s.find(p)]: the least index at which [p] occurs in [s], or [-1]. *)
Fixpoint find (s p : str) : Z :=
  if startswith s p then 0%Z
  else match s with
       | [] => (-1)%Z
       | _ :: s' => let i := find s' p in
                    if Z.eqb i (-1) then (-1)%Z else (i + 1)%Z
       end.

(** [p in s] for strings. *)
Definition contains (p s : str) : bool := negb (Z.eqb (find s p) (-1)).

(** [s[i:]] for an index [i >= 0]. *)
Definition slice_from (s : str) (i : Z) : str := skipn (Z.to_nat i) s.

Fixpoint join (sep : str) (l : list str) : str :=
  match l with
  | [] => []
  | [x] => x
  | x :: l' => x ++ sep ++ join sep l'
  end.

(** [str(n)] of a non-negative integer, as an f-string renders it. *)
Definition str_of_nat (n : nat) : str :=
  lit (NilEmpty.string_of_uint (Nat.to_uint n)).

(** Order of strings by code point, and [sorted]. *)
Fixpoint str_leb (a b : str) : bool :=
  match a, b with
  | [], _ => true
  | _ :: _, [] => false
  | x :: a', y :: b' => N.ltb x y || (N.eqb x y && str_leb a' b')
  end.

Fixpoint insert_sorted (x : str) (l : list str) : list str :=
  match l with
  | [] => [x]
  | y :: l' => if str_leb x y then x :: l else y :: insert_sorted x l'
  end.

Definition sorted (l : list str) : list str := fold_right insert_sorted [] l.

(** ** Case tables *)

Definition is_ascii (c : char) : bool := N.ltb c 128.

Definition ascii_lower (c : char) : char :=
  if in_range 65 90 c then (c + 32)%N else c.

(** What the Unicode database says beyond ASCII: [str.lower] of a string
    that is not pure ASCII, [str.isupper] of a one-character string and
    whether a character is a decimal digit (the [\d] of [re]). *)
Class UnicodeData := {
  unicode_lower : str -> str;
  unicode_isupper : char -> bool;
  unicode_isdecimal : char -> bool
}.

Section Case.
Context {U : UnicodeData}.

(** [s.lower()]; CPython takes the first branch for ASCII strings. *)
Definition lower (s : str) : str :=
  if forallb is_ascii s then map ascii_lower s else unicode_lower s.

(** [c.isupper()] for a string of the single character [c]. *)
Definition isupper (c : char) : bool :=
  if is_ascii c then in_range 65 90 c else unicode_isupper c.

Definition isdecimal (c : char) : bool :=
  if is_ascii c then in_range 48 57 c else unicode_isdecimal c.

End Case.

(** ** The regular expressions of [re]

    The fragment the validator uses: literals, [.], character sets, [\d],
    concatenation, alternation, greedy [?], greedy [+] of a one-character
    atom, and numbered groups.  [re.match] anchors at the start of the
    string and backtracks; [run] lists the ways a pattern can match a prefix
    in the order the engine tries them, and the match the engine reports is
    the first. *)
Module Re.

Inductive item : Type :=
| Single (c : char)
| Range (lo hi : char).

Inductive atom : Type :=
| Chr (c : char)
| Dot
| Digit
| Cls (items : list item).

Inductive regex : Type :=
| Eps
| Atom (a : atom)
| Cat (r1 r2 : regex)
| Alt (r1 r2 : regex)
| Opt (r : regex)
| Plus (a : atom)
| Grp (n : nat) (r : regex).

(** The groups of a match, latest binding first. *)
Definition captures := list (nat * str).

Fixpoint group (m : captures) (n : nat) : option str :=
  match m with
  | [] => None
  | (k, w) :: m' => if Nat.eqb k n then Some w else group m' n
  end.

(** An ASCII pattern character [pc] against a subject character under
    [re.IGNORECASE]: the engine lowers the subject with the simple case
    mapping and adds the equivalents i/dotless i and s/long s, so that
    besides the two ASCII cases U+0130 and U+0131 match [i], U+017F matches
    [s] and U+212A (Kelvin sign) matches [k]. *)
Definition ieq (pc ch : char) : bool :=
  (N.eqb (ascii_lower ch) (ascii_lower pc)
   || (N.eqb (ascii_lower pc) 105 && (N.eqb ch 304 || N.eqb ch 305))
   || (N.eqb (ascii_lower pc) 115 && N.eqb ch 383)
   || (N.eqb (ascii_lower pc) 107 && N.eqb ch 8490))%bool.

Definition enum (lo hi : char) : list char :=
  map N.of_nat (seq (N.to_nat lo) (S (N.to_nat hi) - N.to_nat lo)).

Section Matching.
Context {U : UnicodeData}.
Variable ignorecase : bool.

Definition chr_matches (pc ch : char) : bool :=
  if ignorecase then ieq pc ch else N.eqb ch pc.

Definition item_matches (ch : char) (i : item) : bool :=
  match i with
  | Single c => chr_matches c ch
  | Range lo hi =>
      if ignorecase then existsb (fun pc => ieq pc ch) (enum lo hi)
      else in_range lo hi ch
  end.

Definition atom_matches (a : atom) (ch : char) : bool :=
  match a with
  | Chr c => chr_matches c ch
  | Dot => negb (N.eqb ch NL)
  | Digit => isdecimal ch
  | Cls items => existsb (item_matches ch) items
  end.

(** What is left of [s] after [a+], longest match first. *)
Fixpoint plus_rests (p : char -> bool) (s : str) : list str :=
  match s with
  | ch :: s' => if p ch then plus_rests p s' ++ [s'] else []
  | [] => []
  end.

(** The text a group matched: [s] up to the remainder [s']. *)
Definition taken (s s' : str) : str := firstn (length s - length s') s.

Fixpoint run (r : regex) (s : str) (m : captures) : list (str * captures) :=
  match r with
  | Eps => [(s, m)]
  | Atom a =>
      match s with
      | ch :: s' => if atom_matches a ch then [(s', m)] else []
      | [] => []
      end
  | Cat r1 r2 => flat_map (fun x => run r2 (fst x) (snd x)) (run r1 s m)
  | Alt r1 r2 => run r1 s m ++ run r2 s m
  | Opt r1 => run r1 s m ++ [(s, m)]
  | Plus a => map (fun s' => (s', m)) (plus_rests (atom_matches a) s)
  | Grp n r1 =>
      map (fun x => (fst x, (n, taken s (fst x)) :: snd x)) (run r1 s m)
  end.

End Matching.

(** [re.match(pattern, string, flags)]: the groups of the first match, or
    [None]. *)
Definition re_match {U : UnicodeData} (pattern : regex) (s : str)
    (ignorecase : bool) : option captures :=
  match run ignorecase pattern s [] with
  | [] => None
  | x :: _ => Some (snd x)
  end.

(** Pattern syntax: a literal word, and [r1|r2|...]. *)
Fixpoint word (w : str) : regex :=
  match w with
  | [] => Eps
  | c :: w' => Cat (Atom (Chr c)) (word w')
  end.

Fixpoint alts (r : regex) (rs : list regex) : regex :=
  match rs with
  | [] => r
  | r' :: rs' => Alt r (alts r' rs')
  end.

End Re.

(** ** State and exceptions *)

Inductive exn : Type := IndexError | TypeError | AttributeError.

Inductive outcome (A : Type) : Type :=
| Ok (a : A)
| Raise (e : exn).

Arguments Ok {A} a.
Arguments Raise {A} e.

(** The instance attributes of [CommitMessageValidator]. *)
Record validator : Type := Validator {
  errors : list str;
  warnings : list str
}.

Definition M (A : Type) : Type := validator -> outcome (A * validator).

Definition ret {A} (a : A) : M A := fun st => Ok (a, st).

Definition bind {A B} (c : M A) (k : A -> M B) : M B :=
  fun st => match c st with
            | Ok (a, st') => k a st'
            | Raise e => Raise e
            end.

Definition raise {A} (e : exn) : M A := fun _ => Raise e.

Declare Scope py_scope.
Delimit Scope py_scope with py.
Notation "x <- c ;; k" := (bind c (fun x => k))
  (at level 61, c at next level, right associativity) : py_scope.
Notation "c ;; k" := (bind c (fun _ => k))
  (at level 61, right associativity) : py_scope.
Open Scope py_scope.
Open Scope string_scope.
Open Scope list_scope.

(** [self.errors.append(msg)] and [self.warnings.append(msg)]. *)
Definition append_error (msg : str) : M unit :=
  fun st => Ok (tt, Validator (errors st ++ [msg]) (warnings st)).

Definition append_warning (msg : str) : M unit :=
  fun st => Ok (tt, Validator (errors st) (warnings st ++ [msg])).

Definition when (b : bool) (c : M unit) : M unit := if b then c else ret tt.

(** [l[i]] for [i >= 0]. *)
Definition getitem {A} (l : list A) (i : nat) : M A :=
  match nth_error l i with
  | Some x => ret x
  | None => raise IndexError
  end.

(** [for x in l: body(x)]. *)
Fixpoint for_each {A} (l : list A) (body : A -> M unit) : M unit :=
  match l with
  | [] => ret tt
  | x :: l' => body x ;; for_each l' body
  end.

(** [enumerate(l, start)]. *)
Definition enumerate {A} (l : list A) (start : nat) : list (nat * A) :=
  combine (seq start (length l)) l.

(** The truth value of an optional string: [None] and [''] are false. *)
Definition truthy (o : option str) : bool :=
  match o with
  | Some (_ :: _) => true
  | _ => false
  end.

(** ** The rule tables *)

Definition VALID_TYPES : list (str * str) :=
  [ (lit "feat", lit "A new feature");
    (lit "fix", lit "A bug fix");
    (lit "docs", lit "Documentation only changes");
    (lit "style", lit "Changes that do not affect the meaning of the code");
    (lit "refactor",
     lit "A code change that neither fixes a bug nor adds a feature");
    (lit "perf", lit "A code change that improves performance");
    (lit "test", lit "Adding missing tests or correcting existing tests");
    (lit "build",
     lit "Changes that affect the build system or external dependencies");
    (lit "ci", lit "Changes to our CI configuration files and scripts");
    (lit "chore", lit "Other changes that don't modify src or test files");
    (lit "revert", lit "Reverts a previous commit");
    (lit "security", lit "Security improvements");
    (lit "deps", lit "Dependency updates");
    (lit "remove", lit "Remove features or code") ].

(** [VALID_TYPES.keys()], in insertion order. *)
Definition keys (d : list (str * str)) : list str := map fst d.

Definition VALID_SCOPES : list str :=
  map lit
    [ "cli"; "watch"; "test"; "processor"; "runner"; "cache"; "ui"; "display";
      "colors"; "icons"; "config"; "app"; "events"; "models"; "metrics";
      "complexity"; "benchmarks"; "integration"; "recovery"; "coordinator";
      "debouncer"; "watcher"; "core"; "renderer"; "docs"; "scripts"; "ci";
      "makefile"; "hooks"; "quality"; "performance"; "security"; "deps" ].

Definition vague_words : list str :=
  map lit
    [ "fix"; "update"; "change"; "modify"; "improve"; "refactor"; "cleanup" ].

Definition imperative_indicators : list str :=
  map lit
    [ "add"; "fix"; "remove"; "update"; "improve"; "refactor"; "implement";
      "create"; "delete"; "enhance"; "optimize"; "clean"; "extract";
      "rename"; "move"; "split"; "merge"; "integrate"; "configure";
      "resolve"; "install"; "setup"; "build"; "deploy"; "release" ].

(** ** The patterns *)

Import Re.

Definition az : atom := Cls [Range (chr "a") (chr "z")].
Definition az_hyphen : atom := Cls [Range (chr "a") (chr "z"); Single (chr "-")].
Definition sym (s : string) : regex := Atom (Chr (chr s)).

(** [(feat|fix|...|remove)] *)
Definition type_alternation : regex :=
  alts (word "feat")
    [ word "fix"; word "docs"; word "style"; word "refactor"; word "perf";
      word "test"; word "build"; word "ci"; word "chore"; word "revert";
      word "security"; word "deps"; word "remove" ].

(** [^(feat|fix|...|remove)(\([a-z-]+\))?(!)?: .+] *)
Definition format_tail : regex :=
  Cat (Opt (Grp 2 (Cat (sym "(") (Cat (Plus az_hyphen) (sym ")")))))
 (Cat (Opt (Grp 3 (sym "!")))
 (Cat (sym ":") (Cat (sym " ") (Plus Dot)))).

Definition format_pattern : regex := Cat (Grp 1 type_alternation) format_tail.

(** [^([a-z]+)(\(([a-z-]+)\))?(!)?: (.+)] *)
Definition fields_tail : regex :=
  Cat (Opt (Grp 2 (Cat (sym "(") (Cat (Grp 3 (Plus az_hyphen)) (sym ")")))))
 (Cat (Opt (Grp 4 (sym "!")))
 (Cat (sym ":") (Cat (sym " ") (Grp 5 (Plus Dot))))).

Definition fields_pattern : regex := Cat (Grp 1 (Plus az)) fields_tail.

(** [^Closes #\d+] and the others. *)
Definition issue_ref (w : string) : regex :=
  Cat (word w) (Cat (sym " ") (Cat (sym "#") (Plus Digit))).

Definition footer_patterns : list regex :=
  [ issue_ref "Closes"; issue_ref "Fixes"; issue_ref "Resolves";
    issue_ref "Refs"; word "BREAKING CHANGE:"; word "Co-authored-by:";
    word "Signed-off-by:" ].

(** The source file holds these code points where the messages mean a
    less-or-equal sign and an arrow. *)
Definition LE_SIGN : str := [8218; 226; 167]%N.
Definition ARROW : str := [8218; 220; 237]%N.

(** ** The validator *)

Section Validator.
Context {U : UnicodeData}.

Definition invalid_header_message (header : str) : str :=
  lit "Invalid header format: '" ++ header ++ lit "'" ++ [NL]
  ++ lit "Expected: type(scope): description" ++ [NL]
  ++ lit "Valid types: " ++ join (lit ", ") (keys VALID_TYPES) ++ [NL]
  ++ lit "Valid scopes: " ++ join (lit ", ") (sorted VALID_SCOPES).

Definition header_too_long_message (header : str) : str :=
  lit "Header too long: " ++ str_of_nat (length header)
  ++ lit " chars (max: 72)".

Definition header_long_message (header : str) : str :=
  lit "Header long: " ++ str_of_nat (length header)
  ++ lit " chars (recommended: " ++ LE_SIGN ++ lit "50)".

Definition validate_format (message : str) : M bool :=
  let lines := split NL (strip message) in
  if is_empty lines then
    append_error (lit "Commit message cannot be empty") ;;
    ret false
  else
    header <- getitem lines 0 ;;
    if Nat.ltb 72 (length header) then
      append_error (header_too_long_message header) ;;
      ret false
    else
      when (Nat.ltb 50 (length header))
           (append_warning (header_long_message header)) ;;
      match re_match format_pattern header true with
      | None =>
          append_error (invalid_header_message header) ;;
          ret false
      | Some _ => ret true
      end.

Definition invalid_type_message (commit_type : str) : str :=
  lit "Invalid type '" ++ commit_type ++ lit "'. Valid types: "
  ++ join (lit ", ") (keys VALID_TYPES).

Definition unknown_scope_message (scope : str) : str :=
  lit "Unknown scope '" ++ scope ++ lit "'. Consider using: "
  ++ join (lit ", ") (sorted VALID_SCOPES).

Definition validate_type_and_scope (message : str) : M bool :=
  header <- getitem (split NL (strip message)) 0 ;;
  match re_match fields_pattern header true with
  | None => ret false
  | Some m =>
      commit_type <- match group m 1 with
                     | Some g => ret (lower g)
                     | None => raise AttributeError
                     end ;;
      let scope := group m 3 in
      let breaking := match group m 4 with
                      | Some g => str_eqb g (lit "!")
                      | None => false
                      end in
      let description := group m 5 in
      if negb (mem commit_type (keys VALID_TYPES)) then
        append_error (invalid_type_message commit_type) ;;
        ret false
      else
        match scope with
        | Some sc =>
            when (truthy scope && negb (mem sc VALID_SCOPES))
                 (append_warning (unknown_scope_message sc))
        | None => ret tt
        end ;;
        if negb (truthy description) then
          append_error (lit "Description cannot be empty") ;;
          ret false
        else
          d <- match description with
               | Some d => ret d
               | None => raise TypeError
               end ;;
          first <- getitem d 0 ;;
          when (isupper first)
               (append_warning
                  (lit "Description should start with lowercase letter")) ;;
          when (endswith d (lit "."))
               (append_warning
                  (lit "Description should not end with a period")) ;;
          when breaking
               (append_warning
                  (lit "Breaking change detected - ensure CHANGELOG.md is updated")) ;;
          ret true
  end.

Definition line_too_long_message (i : nat) (line : str) : str :=
  lit "Line " ++ str_of_nat i ++ lit " too long: " ++ str_of_nat (length line)
  ++ lit " chars (recommended: " ++ LE_SIGN ++ lit "72)".

Definition blank_line_message : str :=
  lit "There must be a blank line between header and body".

(** The footer loop of the source only looks: it [break]s out of the inner
    loop at the first pattern that matches and records nothing. *)
Definition recognised_footers (lines : list str) : list bool :=
  map (fun line =>
         existsb (fun pattern =>
                    match re_match pattern line false with
                    | Some _ => true
                    | None => false
                    end) footer_patterns) lines.

Definition validate_body_and_footer (message : str) : M bool :=
  let lines := split NL (strip message) in
  if Nat.ltb (length lines) 2 then ret true
  else
    missing_blank <- (if Nat.ltb 1 (length lines) then
                        second <- getitem lines 1 ;;
                        ret (negb (is_empty (strip second)))
                      else ret false) ;;
    if (missing_blank : bool) then
      append_error blank_line_message ;;
      ret false
    else
      for_each (enumerate (skipn 2 lines) 3)
        (fun x => when (Nat.ltb 72 (length (snd x)))
                       (append_warning
                          (line_too_long_message (fst x) (snd x)))) ;;
      let _ := recognised_footers lines in
      ret true.

Definition vague_message (description : str) : str :=
  lit "Description '" ++ description
  ++ lit "' is too vague. Be more specific about what was changed.".

Definition imperative_message (description : str) : str :=
  lit "Consider using imperative mood: '" ++ description ++ lit "' "
  ++ ARROW ++ lit " 'add ...', 'fix ...', etc.".

Definition validate_content_quality (message : str) : M bool :=
  header <- getitem (split NL (strip message)) 0 ;;
  let colon_pos := find header (lit ": ") in
  if Z.eqb colon_pos (-1) then ret false
  else
    let description := strip (slice_from header (colon_pos + 2)) in
    when (existsb (fun word => str_eqb (strip (lower description)) word)
                  vague_words)
         (append_warning (vague_message description)) ;;
    when (Nat.ltb (length description) 10)
         (append_warning
            (lit "Description should be at least 10 characters for clarity")) ;;
    first_word <- (if negb (is_empty (split_ws description)) then
                     w <- getitem (split_ws description) 0 ;;
                     ret (lower w)
                   else ret []) ;;
    when (negb (mem first_word imperative_indicators))
         (append_warning (imperative_message description)) ;;
    ret true.

Definition empty_message : str := lit "Commit message cannot be empty".

Definition validate_commit_message (message : str)
  : M (bool * list str * list str) :=
  fun _ =>
    (if is_empty message || is_empty (strip message) then
       append_error empty_message ;;
       fun st => Ok ((false, errors st, warnings st), st)
     else
       format_ok <- validate_format message ;;
       type_scope_ok <- (if (format_ok : bool)
                         then validate_type_and_scope message
                         else ret false) ;;
       body_footer_ok <- (if format_ok
                          then validate_body_and_footer message
                          else ret false) ;;
       quality_ok <- (if format_ok
                      then validate_content_quality message
                      else ret false) ;;
       let is_valid :=
         format_ok && type_scope_ok && body_footer_ok && quality_ok in
       fun st => Ok ((is_valid, errors st, warnings st), st))
      (Validator [] []).

End Validator.

(** [CommitMessageValidator().validate_commit_message(message)]: a fresh
    instance, as the command line and the tests use it. *)
Definition validate {U : UnicodeData} (message : str)
  : outcome (bool * list str * list str) :=
  match validate_commit_message message (Validator [] []) with
  | Ok (r, _) => Ok r
  | Raise e => Raise e
  end.

(** A table for running the model on ASCII input: nothing beyond ASCII is
    cased or a digit. *)
Definition ascii_only : UnicodeData :=
  {| unicode_lower := fun s => s;
     unicode_isupper := fun _ => false;
     unicode_isdecimal := fun _ => false |}.

(** ** Vocabulary of the statements *)

(** [message.strip().split('\n')] and its first element, the header every
    check examines. *)
Definition lines_of (message : str) : list str := split NL (strip message).
Definition header_of (message : str) : str := hd [] (lines_of message).

(** The description as the quality check extracts it:
    [header[header.find(': ') + 2:].strip()]. *)
Definition description_of (header : str) : str :=
  strip (slice_from header (find header (lit ": ") + 2)).

(** The characters [[a-z]] matches under [re.IGNORECASE]: the ASCII letters
    of both cases and the four letters U+0130, U+0131 (dotted and dotless
    i), U+017F (long s) and U+212A (Kelvin sign); and those of [[a-z-]]. *)
Definition letter (ch : char) : bool :=
  (in_range (chr "a") (chr "z") ch || in_range (chr "A") (chr "Z") ch
   || N.eqb ch 304 || N.eqb ch 305 || N.eqb ch 383 || N.eqb ch 8490)%bool.

Definition scope_char (ch : char) : bool :=
  (letter ch || N.eqb ch (chr "-"))%bool.

(** [[a-z-]] read case-sensitively, as the specification words it. *)
Definition lower_scope_char (ch : char) : bool :=
  (in_range (chr "a") (chr "z") ch || N.eqb ch (chr "-"))%bool.

(** The header shape [type(scope)?!?: description] of the specification:
    a type of the fixed set in any (ASCII) letter case, an optional scope in
    parentheses whose characters satisfy [ok], an optional [!], a colon and
    a space, and a non-empty description. *)
Definition conventional_header (ok : char -> bool) (h : str) : Prop :=
  exists ty scope bang d,
    h = ty ++ scope ++ bang ++ lit ": " ++ d
    /\ mem (map ascii_lower ty) (keys VALID_TYPES) = true
    /\ (scope = []
        \/ exists sc, scope = lit "(" ++ sc ++ lit ")"
                      /\ sc <> [] /\ forallb ok sc = true)
    /\ (bang = [] \/ bang = lit "!")
    /\ d <> [].

(** A text the type alternation matches under [re.IGNORECASE]. *)
Definition type_token (ty : str) : Prop :=
  exists w, In w (keys VALID_TYPES)
            /\ Forall2 (fun pc ch => ieq pc ch = true) w ty.

(** What follows the type in a header the patterns match: an optional
    scope in parentheses, an optional [!], and a description that is not
    empty and has no line feed. *)
Definition tail_shape (scope bang d : str) : Prop :=
  (scope = []
   \/ exists sc, scope = lit "(" ++ sc ++ lit ")"
                 /\ sc <> [] /\ forallb scope_char sc = true)
  /\ (bang = [] \/ bang = lit "!")
  /\ d <> [] /\ ~ In NL d.

(** No body, or a blank second line. *)
Definition body_separated (lines : list str) : Prop :=
  match lines with
  | _ :: second :: _ => strip second = []
  | _ => True
  end.

(** A computation that returns [a], appends [E] to the errors and [W] to
    the warnings, and does not raise. *)
Definition emits {A} (c : M A) (P : A -> list str -> list str -> Prop) : Prop :=
  forall st, exists a E W,
    c st = Ok (a, Validator (errors st ++ E) (warnings st ++ W)) /\ P a E W.

(** The vagueness warning is the only message that starts this way. *)
Definition is_vague_warning (w : str) : bool :=
  startswith w (lit "Description '").


(** ** What each check does

    The postconditions of the four checks, as relations between the flag a
    check returns and the errors and warnings it appends. *)

Definition not_vague (W : list str) : Prop :=
  Forall (fun w => is_vague_warning w = false) W.

Definition format_post {U : UnicodeData} (h : str) (b : bool) (E W : list str) : Prop :=
  if Nat.ltb 72 (length h) then
    b = false /\ E = [header_too_long_message h] /\ W = []
  else
    W = (if Nat.ltb 50 (length h) then [header_long_message h] else [])
    /\ match re_match format_pattern h true with
       | None => b = false /\ E = [invalid_header_message h]
       | Some _ => b = true /\ E = []
       end.

Definition fields_post {U : UnicodeData} (h : str) (b : bool) (E W : list str) : Prop :=
  not_vague W
  /\ match re_match fields_pattern h true with
     | None => b = false /\ E = []
     | Some m =>
         exists g, group m 1 = Some g /\ truthy (group m 5) = true
                   /\ if mem (lower g) (keys VALID_TYPES)
                      then b = true /\ E = []
                      else b = false /\ exists e, E = [e]
     end.

Definition body_post (lines : list str) (b : bool) (E W : list str) : Prop :=
  not_vague W
  /\ match lines with
     | _ :: second :: _ =>
         if is_empty (strip second) then b = true /\ E = []
         else b = false /\ E = [blank_line_message] /\ W = []
     | _ => b = true /\ E = [] /\ W = []
     end.

Definition quality_post {U : UnicodeData} (h : str) (b : bool) (E W : list str) : Prop :=
  E = []
  /\ if Z.eqb (find h (lit ": ")) (-1) then b = false /\ W = []
     else b = true
          /\ exists W',
               not_vague W'
               /\ W = (if mem (strip (lower (description_of h))) vague_words
                       then [vague_message (description_of h)] else [])
                      ++ W'.

(** ** Composed headers and the warnings of a pass

    A header put together from its parts, and the lists of warnings the
    checks append, written as functions of what they depend on. *)

(** [type(scope)!: description] from its parts. *)
Definition compose_header (ty : str) (scope : option str) (breaking : bool)
    (d : str) : str :=
  ty ++ match scope with
        | Some sc => lit "(" ++ sc ++ lit ")"
        | None => []
        end
     ++ (if breaking then lit "!" else []) ++ lit ": " ++ d.

(** The parts a header the patterns match is made of: a type of letters, a
    scope of letters and hyphens, a description without a line feed. *)
Definition well_formed_fields (ty : str) (scope : option str) (d : str) : Prop :=
  ty <> [] /\ forallb letter ty = true
  /\ match scope with
     | Some sc => sc <> [] /\ forallb scope_char sc = true
     | None => True
     end
  /\ d <> [] /\ ~ In NL d.

(** The warning of [validate_format]. *)
Definition header_warnings (h : str) : list str :=
  if Nat.ltb 50 (length h) then [header_long_message h] else [].

(** The warnings of [validate_type_and_scope], in the order of the source. *)
Definition type_scope_warnings {U : UnicodeData} (scope : option str)
    (breaking : bool) (d : str) : list str :=
  match scope with
  | Some sc =>
      if negb (mem sc VALID_SCOPES) then [unknown_scope_message sc] else []
  | None => []
  end
  ++ (if match d with ch :: _ => isupper ch | [] => false end
      then [lit "Description should start with lowercase letter"] else [])
  ++ (if endswith d (lit ".")
      then [lit "Description should not end with a period"] else [])
  ++ (if breaking
      then [lit "Breaking change detected - ensure CHANGELOG.md is updated"]
      else []).

(** The warnings of [validate_body_and_footer]: one for each line after the
    second that has more than 72 characters. *)
Definition body_warnings (lines : list str) : list str :=
  flat_map (fun x => if Nat.ltb 72 (length (snd x))
                     then [line_too_long_message (fst x) (snd x)] else [])
    (enumerate (skipn 2 lines) 3).

(** No second line, or a blank one. *)
Definition blank_line_ok (lines : list str) : bool :=
  match lines with
  | _ :: second :: _ => is_empty (strip second)
  | _ => true
  end.

(** [description.split()[0].lower() if description.split() else '']. *)
Definition first_word {U : UnicodeData} (description : str) : str :=
  match split_ws description with
  | w :: _ => lower w
  | [] => []
  end.

(** The warnings of [validate_content_quality]. *)
Definition quality_warnings {U : UnicodeData} (description : str) : list str :=
  (if mem (strip (lower description)) vague_words
   then [vague_message description] else [])
  ++ (if Nat.ltb (length description) 10
      then [lit "Description should be at least 10 characters for clarity"]
      else [])
  ++ (if negb (mem (first_word description) imperative_indicators)
      then [imperative_message description] else []).

(** The first character of a message, which tells most of them apart. *)
Definition initial (w : str) : char := hd 0%N w.

(** ** The command line

    [main] prints and ends the process with [sys.exit]; it is modelled in
    a monad that carries the lines printed so far and stops at an exit or
    at an exception nobody catches.  What the process is given is a
    [world]: the arguments, which paths exist, what reading a file or the
    standard input yields ([None] when [open] or [read] raises), and
    whether the standard input is a terminal. *)

Inductive ending : Type :=
| Exit (code : Z)
| Uncaught.

Definition IO (A : Type) : Type := list str -> list str * (A + ending).

Definition io_ret {A} (a : A) : IO A := fun out => (out, inl a).

Definition io_bind {A B} (c : IO A) (k : A -> IO B) : IO B :=
  fun out => match c out with
             | (out', inl a) => k a out'
             | (out', inr e) => (out', inr e)
             end.

(** [print(s)], [sys.exit(code)] and an exception that is not caught. *)
Definition print (s : str) : IO unit := fun out => (out ++ [s], inl tt).
Definition sys_exit {A} (code : Z) : IO A := fun out => (out, inr (Exit code)).
Definition io_raise {A} : IO A := fun out => (out, inr Uncaught).

Declare Scope io_scope.
Delimit Scope io_scope with io.
Notation "x <- c ;; k" := (io_bind c (fun x => k))
  (at level 61, c at next level, right associativity) : io_scope.
Notation "c ;; k" := (io_bind c (fun _ => k))
  (at level 61, right associativity) : io_scope.

Fixpoint io_for {A} (l : list A) (body : A -> IO unit) : IO unit :=
  match l with
  | [] => io_ret tt
  | x :: l' => (body x ;; io_for l' body)%io
  end.

Record world : Type := World {
  argv : list str;
  path_exists : str -> bool;
  read_file : str -> option str;
  stdin_isatty : bool;
  stdin_read : option str
}.

(** The texts [main] prints, with the code points the source file holds
    where it means a symbol. *)

Definition help_text : str :=
  join [NL]
    [ [];
      ([63743; 252; 238; 231]%N ++ lit " Commit Message Format Guide");
      [];
      (lit "Format: type(scope): description");
      [];
      (lit "Valid Types:");
      (lit "  feat     - New feature");
      (lit "  fix      - Bug fix");
      (lit "  docs     - Documentation changes");
      (lit "  style    - Code style changes (formatting, etc.)");
      (lit "  refactor - Code refactoring");
      (lit "  perf     - Performance improvements");
      (lit "  test     - Adding or updating tests");
      (lit "  build    - Build system or dependency changes");
      (lit "  ci       - CI/CD configuration changes");
      (lit "  chore    - Other changes (tooling, etc.)");
      (lit "  security - Security improvements");
      (lit "  deps     - Dependency updates");
      [];
      (lit "Common Scopes:");
      (lit "  cli, watch, test, processor, runner, cache, ui, display,");
      (lit "  colors, config, app, events, models, metrics, complexity");
      [];
      (lit "Examples:");
      (lit "  " ++ [8218; 250; 214]%N ++ lit " feat(cli): add complexity analysis command");
      (lit "  " ++ [8218; 250; 214]%N ++ lit " fix(watch): resolve file debouncing race condition");
      (lit "  " ++ [8218; 250; 214]%N ++ lit " docs(readme): update installation instructions");
      (lit "  " ++ [8218; 250; 214]%N ++ lit " test(processor): add integration tests for JSON parsing");
      (lit "  " ++ [8218; 250; 214]%N ++ lit " refactor(ui): extract color formatting to separate package");
      [];
      (lit "Breaking Changes:");
      (lit "  feat(api)!: remove deprecated endpoints");
      [];
      (lit "Body (optional):");
      (lit "  - Use imperative mood");
      (lit "  - Explain why, not what");
      (lit "  - Keep lines " ++ [8218; 226; 167]%N ++ lit "72 characters");
      [];
      (lit "Footer (optional):");
      (lit "  Closes #123");
      (lit "  BREAKING CHANGE: API endpoints changed");
      [] ].

Definition no_message_line : str := [8218; 249; 229]%N ++ lit " Error: No commit message provided".

Definition help_hint_line : str := [10]%N ++ lit "Use --help for format guide".

Definition valid_line : str := [8218; 250; 214]%N ++ lit " Commit message format is valid".

Definition results_line : str := [63743; 252; 236; 249]%N ++ lit " Commit Message Validation Results".

Definition errors_heading : str := [10; 8218; 249; 229]%N ++ lit " ERRORS (must fix):".

Definition BULLET : str := lit "  " ++ [8218; 196; 162]%N ++ lit " ".

Definition warnings_heading : str := [10; 8218; 246; 8224; 212; 8719; 232]%N ++ lit "  WARNINGS (recommended fixes):".

Definition failed_line : str := [10; 8218; 249; 229]%N ++ lit " Commit message validation failed".

Definition valid_with_warnings_line : str := [10; 8218; 250; 214]%N ++ lit " Commit message is valid (with warnings)".

Section CommandLine.
Context {U : UnicodeData}.
Variable w : world.

Definition read_commit_message (file_path : option str) : IO str :=
  (if truthy file_path
      && match file_path with
         | Some p => path_exists w p
         | None => false
         end
   then match file_path with
        | Some p => match read_file w p with
                    | Some content => io_ret content
                    | None => io_raise
                    end
        | None => io_raise
        end
   else if negb (stdin_isatty w) then
     match stdin_read w with
     | Some content => io_ret content
     | None => io_raise
     end
   else io_ret (if Nat.ltb 1 (length (argv w))
                then join (lit " ") (skipn 1 (argv w)) else []))%io.

Definition print_help : IO unit := print help_text.

(** [sys.argv[1] if len(sys.argv) > 1 else None]. *)
Definition commit_msg_file : option str :=
  if Nat.ltb 1 (length (argv w)) then nth_error (argv w) 1 else None.

Definition main : IO unit :=
  ((if mem (lit "--help") (argv w) || mem (lit "-h") (argv w)
    then print_help ;; sys_exit 0
    else io_ret tt) ;;
   message <- read_commit_message commit_msg_file ;;
   (if is_empty (strip message)
    then print no_message_line ;; print help_hint_line ;; sys_exit 1
    else io_ret tt) ;;
   result <- match validate message with
             | Ok r => io_ret r
             | Raise _ => io_raise
             end ;;
   let is_valid := fst (fst result) in
   let errors := snd (fst result) in
   let warnings := snd result in
   (if is_valid && is_empty warnings
    then print valid_line ;; sys_exit 0
    else io_ret tt) ;;
   print results_line ;;
   print (repeat (chr "=") 50) ;;
   (if negb (is_empty errors)
    then print errors_heading ;;
         io_for errors (fun error => print (BULLET ++ error))
    else io_ret tt) ;;
   (if negb (is_empty warnings)
    then print warnings_heading ;;
         io_for warnings (fun warning => print (BULLET ++ warning))
    else io_ret tt) ;;
   if negb is_valid
   then print failed_line ;; print help_hint_line ;; sys_exit 1
   else print valid_with_warnings_line ;; sys_exit 0)%io.

(** The process: what it printed and how it ended ([main] returning
    normally would end it with status 0). *)
Definition run_main : list str * ending :=
  match main [] with
  | (out, inr e) => (out, e)
  | (out, inl _) => (out, Exit 0)
  end.

End CommandLine.

(** * Properties *)

(** ** Strings *)

Lemma str_eqb_eq (a b : str) : str_eqb a b = true <-> a = b.
Proof.
  revert b; induction a as [|x a IH]; intros [|y b]; simpl;
    try (split; congruence).
  rewrite andb_true_iff, N.eqb_eq, IH. split.
  - intros [-> ->]; reflexivity.
  - intros H; inversion H; auto.
Qed.

Lemma mem_In (x : str) (l : list str) : mem x l = true <-> In x l.
Proof.
  unfold mem. rewrite existsb_exists. split.
  - intros (y & Hy & E). apply str_eqb_eq in E. subst; assumption.
  - intros H. exists x. split; [assumption | apply str_eqb_eq; reflexivity].
Qed.

Lemma split_cons (sep : char) (s : str) :
  exists h rest, split sep s = h :: rest.
Proof.
  induction s as [|x s (h & rest & E)]; simpl.
  - eauto.
  - destruct (N.eqb x sep); [eauto|]. rewrite E. eauto.
Qed.

Lemma split_no_sep (sep : char) (s : str) :
  Forall (fun l => ~ In sep l) (split sep s).
Proof.
  induction s as [|x s IH]; simpl.
  - constructor; [intros [] | constructor].
  - destruct (N.eqb x sep) eqn:E.
    + constructor; [intros [] | assumption].
    + assert (Hx : x <> sep) by (intros ->; rewrite N.eqb_refl in E; discriminate).
      destruct (split sep s) as [|l ls].
      * constructor; [intros [H|[]]; auto | constructor].
      * inversion IH; subst. constructor; [|assumption].
        intros [H|H]; auto.
Qed.

Lemma lstrip_shape (s : str) :
  lstrip s = [] \/ exists x r, lstrip s = x :: r /\ isspace x = false.
Proof.
  induction s as [|x s IH]; simpl; [auto|].
  destruct (isspace x) eqn:E; [assumption|]. right; eauto.
Qed.

Lemma lstrip_app_nonspace (l : str) (x : char) (t : str) :
  isspace x = false -> lstrip (l ++ x :: t) = lstrip l ++ x :: t.
Proof.
  intros Hx. induction l as [|y l IH]; simpl.
  - rewrite Hx; reflexivity.
  - destruct (isspace y); [assumption | reflexivity].
Qed.

Lemma rstrip_cons_nonspace (x : char) (r : str) :
  isspace x = false -> rstrip (x :: r) = x :: rstrip r.
Proof.
  intros Hx. unfold rstrip. simpl.
  rewrite lstrip_app_nonspace by assumption.
  rewrite rev_app_distr. reflexivity.
Qed.

Lemma lstrip_idem (s : str) : lstrip (lstrip s) = lstrip s.
Proof.
  destruct (lstrip_shape s) as [E | (x & r & E & Hx)]; rewrite E; simpl;
    [reflexivity | rewrite Hx; reflexivity].
Qed.

Lemma rstrip_idem (s : str) : rstrip (rstrip s) = rstrip s.
Proof.
  unfold rstrip. rewrite rev_involutive, lstrip_idem. reflexivity.
Qed.

(** [strip] is idempotent. *)
Lemma strip_strip (s : str) : strip (strip s) = strip s.
Proof.
  unfold strip.
  destruct (lstrip_shape s) as [E | (x & r & E & Hx)]; rewrite E.
  - reflexivity.
  - rewrite rstrip_cons_nonspace by assumption. simpl. rewrite Hx.
    rewrite rstrip_cons_nonspace by assumption. rewrite rstrip_idem.
    reflexivity.
Qed.

Lemma strip_whitespace (s : str) : forallb isspace s = true -> strip s = [].
Proof.
  intros H. unfold strip.
  assert (E : lstrip s = []).
  { induction s as [|x s IH]; simpl in *; [reflexivity|].
    apply andb_true_iff in H as [-> H]. auto. }
  rewrite E. reflexivity.
Qed.

Lemma strip_nil_whitespace (s : str) : strip s = [] -> forallb isspace s = true.
Proof.
  unfold strip. intros H.
  destruct (lstrip_shape s) as [E | (x & r & E & Hx)].
  - clear H. induction s as [|y s IH]; simpl in *; [reflexivity|].
    destruct (isspace y); [auto | discriminate].
  - rewrite E, rstrip_cons_nonspace in H by assumption. discriminate.
Qed.

Lemma find_range (s p : str) : (find s p = -1 \/ 0 <= find s p)%Z.
Proof.
  induction s as [|x s IH]; cbn [find];
    destruct (startswith _ p); try (right; lia).
  - left; reflexivity.
  - destruct (Z.eqb_spec (find s p) (-1)); [auto | right; lia].
Qed.

Lemma startswith_app (p t : str) : startswith (p ++ t) p = true.
Proof.
  induction p as [|x p IH]; simpl; [reflexivity|].
  rewrite N.eqb_refl. assumption.
Qed.

Lemma find_app (a p t : str) : find (a ++ p ++ t) p <> (-1)%Z.
Proof.
  assert (H0 : forall s, startswith s p = true -> find s p <> (-1)%Z).
  { intros s H. destruct s; cbn [find]; rewrite H; discriminate. }
  induction a as [|x a IH].
  - exact (H0 _ (startswith_app p t)).
  - change ((x :: a) ++ p ++ t) with (x :: a ++ p ++ t). cbn [find].
    destruct (startswith (x :: a ++ p ++ t) p); [discriminate|].
    destruct (Z.eqb_spec (find (a ++ p ++ t) p) (-1)); [contradiction|].
    pose proof (find_range (a ++ p ++ t) p). lia.
Qed.

(** A string mentions each of its parts. *)
Lemma contains_app (a p t : str) : contains p (a ++ p ++ t) = true.
Proof.
  unfold contains. destruct (Z.eqb_spec (find (a ++ p ++ t) p) (-1)) as [E|E];
    [exfalso; exact (find_app a p t E) | reflexivity].
Qed.

(** ** Character classes under [re.IGNORECASE] *)

Lemma enum_spec (lo hi pc : char) : In pc (enum lo hi) <-> (lo <= pc <= hi)%N.
Proof.
  unfold enum. rewrite in_map_iff. split.
  - intros (n & <- & H). apply in_seq in H. lia.
  - intros H. exists (N.to_nat pc). rewrite N2Nat.id, in_seq. split; [reflexivity | lia].
Qed.

Lemma ieq_lower_spec (pc ch : char) :
  (97 <= pc <= 122)%N ->
  ieq pc ch = true <->
  (ch = pc \/ ((65 <= ch <= 90)%N /\ (ch + 32 = pc)%N)
   \/ (pc = 105%N /\ (ch = 304%N \/ ch = 305%N))
   \/ (pc = 115%N /\ ch = 383%N) \/ (pc = 107%N /\ ch = 8490%N)).
Proof.
  intros Hpc. unfold ieq, ascii_lower, in_range.
  replace (N.leb 65 pc && N.leb pc 90) with false
    by (symmetry; apply andb_false_iff; right; apply N.leb_gt; lia).
  destruct (N.leb_spec 65 ch), (N.leb_spec ch 90); cbn [andb];
    rewrite ?orb_true_iff, ?andb_true_iff, ?orb_true_iff, ?N.eqb_eq; lia.
Qed.

Lemma ieq_uncased (pc ch : char) :
  (pc < 65)%N -> ieq pc ch = N.eqb ch pc.
Proof.
  intros Hpc. unfold ieq, ascii_lower, in_range.
  replace (N.leb 65 pc) with false by (symmetry; apply N.leb_gt; lia).
  cbn [andb].
  replace (N.eqb pc 105) with false by (symmetry; apply N.eqb_neq; lia).
  replace (N.eqb pc 115) with false by (symmetry; apply N.eqb_neq; lia).
  replace (N.eqb pc 107) with false by (symmetry; apply N.eqb_neq; lia).
  cbn [andb orb]. rewrite !orb_false_r.
  destruct (N.leb_spec 65 ch), (N.leb_spec ch 90); cbn [andb]; try reflexivity.
  apply eq_true_iff_eq. rewrite !N.eqb_eq. lia.
Qed.

Lemma letter_spec (ch : char) :
  letter ch = true <-> exists pc, In pc (enum (chr "a") (chr "z")) /\ ieq pc ch = true.
Proof.
  unfold letter, in_range. change (chr "a") with 97%N. change (chr "z") with 122%N.
  change (chr "A") with 65%N. change (chr "Z") with 90%N.
  rewrite !orb_true_iff, !andb_true_iff, !N.leb_le, !N.eqb_eq. split.
  - intros H.
    assert (W : exists pc, (97 <= pc <= 122)%N /\
                (ch = pc \/ ((65 <= ch <= 90)%N /\ (ch + 32 = pc)%N)
                  \/ (pc = 105%N /\ (ch = 304%N \/ ch = 305%N))
                  \/ (pc = 115%N /\ ch = 383%N) \/ (pc = 107%N /\ ch = 8490%N))).
    { destruct H as [[[[[H|H]|H]|H]|H]|H];
        [exists ch | exists (ch + 32)%N | exists 105%N | exists 105%N | exists 115%N | exists 107%N]; lia. }
    destruct W as (pc & Hpc & W). exists pc. rewrite enum_spec. split; [assumption|].
    apply ieq_lower_spec; assumption.
  - intros (pc & Hpc & W). apply enum_spec in Hpc. apply ieq_lower_spec in W; [lia|assumption].
Qed.

Lemma letter_matches {U : UnicodeData} ch : atom_matches true az ch = letter ch.
Proof.
  apply eq_true_iff_eq. rewrite letter_spec. unfold az, atom_matches.
  cbn [existsb item_matches]. rewrite orb_false_r. apply existsb_exists.
Qed.

Lemma scope_char_matches {U : UnicodeData} ch :
  atom_matches true az_hyphen ch = scope_char ch.
Proof.
  unfold scope_char. rewrite <- (letter_matches ch).
  unfold az_hyphen, az, atom_matches. cbn [existsb item_matches chr_matches].
  rewrite !orb_false_r. f_equal. apply ieq_uncased. reflexivity.
Qed.

(** ** The ways a pattern matches *)

Section RunFacts.
Context {U : UnicodeData}.
Variable ic : bool.

Lemma run_Eps s m x : In x (run ic Eps s m) <-> x = (s, m).
Proof. simpl. split; [intros [H|[]]; auto | auto]. Qed.

Lemma run_Atom a s m s' m' :
  In (s', m') (run ic (Atom a) s m)
  <-> exists ch, s = ch :: s' /\ atom_matches ic a ch = true /\ m' = m.
Proof.
  simpl. destruct s as [|ch s0].
  - split; [intros [] | intros (? & ? & _); discriminate].
  - destruct (atom_matches ic a ch) eqn:E; simpl.
    + split.
      * intros [H|[]]. inversion H; subst. eauto.
      * intros (ch' & H & _ & ->). inversion H; subst. auto.
    + split; [intros [] | intros (ch' & H & H' & _)].
      inversion H; subst. congruence.
Qed.

Lemma run_Cat r1 r2 s m x :
  In x (run ic (Cat r1 r2) s m)
  <-> exists s1 m1, In (s1, m1) (run ic r1 s m) /\ In x (run ic r2 s1 m1).
Proof.
  simpl. rewrite in_flat_map. split.
  - intros ([s1 m1] & H1 & H2). eauto.
  - intros (s1 & m1 & H1 & H2). exists (s1, m1). auto.
Qed.

Lemma run_Alt r1 r2 s m x :
  In x (run ic (Alt r1 r2) s m) <-> In x (run ic r1 s m) \/ In x (run ic r2 s m).
Proof. simpl. apply in_app_iff. Qed.

Lemma run_Opt r s m x :
  In x (run ic (Opt r) s m) <-> In x (run ic r s m) \/ x = (s, m).
Proof.
  simpl. rewrite in_app_iff. simpl. intuition congruence.
Qed.

Lemma plus_rests_spec p s s' :
  In s' (plus_rests p s)
  <-> exists w, w <> [] /\ forallb p w = true /\ s = w ++ s'.
Proof.
  revert s'. induction s as [|ch s IH]; intros s'; simpl.
  - split; [intros [] | intros (w & Hw & _ & E)].
    destruct w; [congruence | discriminate].
  - destruct (p ch) eqn:Hp.
    + rewrite in_app_iff, IH. simpl. split.
      * intros [(w & Hw & Hf & ->) | [<- | []]].
        -- exists (ch :: w). simpl. rewrite Hp, Hf. repeat split; congruence.
        -- exists [ch]. simpl. rewrite Hp. repeat split; congruence.
      * intros (w & Hw & Hf & E). destruct w as [|c0 w]; [congruence|].
        simpl in *. inversion E; subst. apply andb_true_iff in Hf as [_ Hf].
        destruct w as [|c1 w]; [right; left; reflexivity|].
        left. exists (c1 :: w). repeat split; [discriminate | assumption].
    + split; [intros [] | intros (w & Hw & Hf & E)].
      destruct w as [|c0 w]; [congruence|]. simpl in *. inversion E; subst.
      rewrite Hp in Hf. discriminate.
Qed.

Lemma run_Plus a s m s' m' :
  In (s', m') (run ic (Plus a) s m)
  <-> exists w, w <> [] /\ forallb (atom_matches ic a) w = true
                /\ s = w ++ s' /\ m' = m.
Proof.
  simpl. rewrite in_map_iff. split.
  - intros (r & E & H). inversion E; subst. apply plus_rests_spec in H.
    destruct H as (w & ? & ? & ?). eauto 6.
  - intros (w & Hw & Hf & E & ->). exists s'. split; [reflexivity|].
    apply plus_rests_spec. eauto.
Qed.

Lemma run_Grp n r s m s' m' :
  In (s', m') (run ic (Grp n r) s m)
  <-> exists m1, In (s', m1) (run ic r s m) /\ m' = (n, taken s s') :: m1.
Proof.
  simpl. rewrite in_map_iff. split.
  - intros ([s1 m1] & E & H). simpl in E. inversion E; subst. eauto.
  - intros (m1 & H & ->). exists (s', m1). auto.
Qed.

Lemma run_suffix r : forall s m s' m',
  In (s', m') (run ic r s m) -> exists w, s = w ++ s'.
Proof.
  induction r; intros s m s' m' H.
  - apply run_Eps in H. inversion H; subst. exists []. reflexivity.
  - apply run_Atom in H as (ch & -> & _). exists [ch]. reflexivity.
  - apply run_Cat in H as (s1 & m1 & H1 & H2).
    apply IHr1 in H1 as (w1 & ->). apply IHr2 in H2 as (w2 & ->).
    exists (w1 ++ w2). rewrite app_assoc. reflexivity.
  - apply run_Alt in H as [H|H]; eauto.
  - apply run_Opt in H as [H|H]; [eauto|]. inversion H; subst. exists []. reflexivity.
  - apply run_Plus in H as (w & _ & _ & -> & _). eauto.
  - apply run_Grp in H as (m1 & H & _). eauto.
Qed.

Lemma taken_app (w s' : str) : taken (w ++ s') s' = w.
Proof.
  unfold taken. rewrite length_app.
  replace (length w + length s' - length s') with (length w) by lia.
  rewrite firstn_app, Nat.sub_diag, firstn_all. simpl. apply app_nil_r.
Qed.

Lemma run_alts r rs s m x :
  In x (run ic (alts r rs) s m) <-> exists r', In r' (r :: rs) /\ In x (run ic r' s m).
Proof.
  revert r. induction rs as [|r0 rs IH]; intros r.
  - simpl alts. split; [intros H; exists r; simpl; auto | intros (r' & [<-|[]] & H); assumption].
  - cbn [alts]. rewrite run_Alt, IH. split.
    + intros [H | (r' & Hr & H)]; [exists r | exists r']; simpl In; auto.
    + intros (r' & [<-|Hr] & H); [left | right]; eauto.
Qed.

End RunFacts.

Section WordFacts.
Context {U : UnicodeData}.

Lemma run_word w : forall s m s' m',
  In (s', m') (run true (word w) s m)
  <-> exists u, s = u ++ s' /\ Forall2 (fun pc ch => ieq pc ch = true) w u /\ m' = m.
Proof.
  induction w as [|pc w IH]; intros s m s' m'; cbn [word].
  - rewrite run_Eps. split.
    + intros H; inversion H; subst. exists []. auto.
    + intros (u & -> & H & ->). inversion H; subst. reflexivity.
  - rewrite run_Cat. split.
    + intros (s1 & m1 & H1 & H2). apply run_Atom in H1 as (ch & -> & Hc & ->).
      apply IH in H2 as (u & -> & H2 & ->). exists (ch :: u). auto.
    + intros (u & -> & H & ->). inversion H as [|? ch ? u' Hc H']; subst.
      exists (u' ++ s'), m. split.
      * apply run_Atom. exists ch. repeat split. exact Hc.
      * apply IH. eauto.
Qed.

End WordFacts.

(** ** The two header patterns *)

Lemma ascii_lower_idem (ch : char) : ascii_lower (ascii_lower ch) = ascii_lower ch.
Proof.
  unfold ascii_lower. destruct (in_range 65 90 ch) eqn:E; [|rewrite E; reflexivity].
  replace (in_range 65 90 (ch + 32)) with false; [reflexivity|].
  symmetry. unfold in_range in *. apply andb_true_iff in E as [E _].
  apply N.leb_le in E. apply andb_false_iff. right. apply N.leb_gt. lia.
Qed.

Lemma ieq_ascii_lower (ch : char) : ieq (ascii_lower ch) ch = true.
Proof.
  unfold ieq. rewrite ascii_lower_idem, N.eqb_refl. reflexivity.
Qed.

Lemma is_ascii_lower (ch : char) :
  is_ascii (ascii_lower ch) = true -> is_ascii ch = true.
Proof.
  unfold is_ascii, ascii_lower, in_range.
  destruct (N.leb_spec 65 ch), (N.leb_spec ch 90); cbn [andb];
    rewrite !N.ltb_lt; lia.
Qed.

Lemma keys_lowercase (w : str) :
  In w (keys VALID_TYPES) ->
  w <> [] /\ forallb (in_range 97 122) w = true.
Proof.
  assert (H : forallb (fun w => negb (is_empty w) && forallb (in_range 97 122) w)
                (keys VALID_TYPES) = true) by reflexivity.
  rewrite forallb_forall in H. intros Hw. apply H in Hw.
  apply andb_true_iff in Hw as [H1 H2]. split; [|assumption].
  destruct w; [discriminate | discriminate].
Qed.

Lemma type_token_letters (ty : str) :
  type_token ty -> ty <> [] /\ forallb letter ty = true.
Proof.
  intros (w & Hw & H). apply keys_lowercase in Hw as [Hne Hlow]. split.
  - destruct H; [congruence | discriminate].
  - clear Hne. induction H as [|pc ch w ty Hc H IH]; [reflexivity|].
    simpl in *. apply andb_true_iff in Hlow as [Hpc Hlow].
    rewrite IH by assumption. rewrite andb_true_r.
    apply letter_spec. exists pc. split; [|assumption].
    apply enum_spec. unfold in_range in Hpc.
    apply andb_true_iff in Hpc as [H1 H2]. apply N.leb_le in H1, H2.
    change (chr "a") with 97%N. change (chr "z") with 122%N. lia.
Qed.

Lemma type_token_of_mem (ty : str) :
  mem (map ascii_lower ty) (keys VALID_TYPES) = true ->
  type_token ty /\ forallb is_ascii ty = true.
Proof.
  intros H. apply mem_In in H. split.
  - exists (map ascii_lower ty). split; [assumption|].
    clear H. induction ty; simpl; constructor; auto using ieq_ascii_lower.
  - apply keys_lowercase in H as [_ H].
    induction ty as [|ch ty IH]; [reflexivity|]. simpl in *.
    apply andb_true_iff in H as [H1 H2]. rewrite IH by assumption.
    rewrite andb_true_r. apply is_ascii_lower.
    unfold in_range in H1. apply andb_true_iff in H1 as [_ H1].
    apply N.leb_le in H1. apply N.ltb_lt. lia.
Qed.

Lemma lower_scope_char_ok (ch : char) :
  lower_scope_char ch = true -> scope_char ch = true.
Proof.
  unfold lower_scope_char, scope_char, letter.
  rewrite !orb_true_iff. intuition.
Qed.

(** Two ways to cut a text into a run of [p] and a rest that does not start
    with [p] agree. *)
Lemma span_unique (p : char -> bool) : forall a a' x x' r r',
  a ++ x :: r = a' ++ x' :: r' ->
  forallb p a = true -> forallb p a' = true ->
  p x = false -> p x' = false -> a = a' /\ x :: r = x' :: r'.
Proof.
  induction a as [|y a IH]; intros [|y' a'] x x' r r' E Ha Ha' Hx Hx';
    simpl in *.
  - auto.
  - inversion E; subst. apply andb_true_iff in Ha' as [Ha' _]. congruence.
  - inversion E; subst. apply andb_true_iff in Ha as [Ha _]. congruence.
  - inversion E; subst. apply andb_true_iff in Ha as [_ Ha].
    apply andb_true_iff in Ha' as [_ Ha'].
    destruct (IH a' x x' r r' H1 Ha Ha' Hx Hx') as [-> ?]. auto.
Qed.

Section Patterns.
Context {U : UnicodeData}.

Lemma re_match_some (r : regex) (s : str) :
  re_match r s true <> None <-> exists x, In x (run true r s []).
Proof.
  unfold re_match. destruct (run true r s []) as [|x l]; split.
  - congruence.
  - intros (x & []).
  - intros _. exists x. left; reflexivity.
  - discriminate.
Qed.

Lemma re_match_In (r : regex) (s : str) (m : captures) :
  re_match r s true = Some m -> exists s', In (s', m) (run true r s []).
Proof.
  unfold re_match. destruct (run true r s []) as [|[s' m'] l]; [discriminate|].
  simpl. intros H; inversion H; subst. exists s'. left; reflexivity.
Qed.

Lemma uncased_match (pc ch : char) :
  (pc < 65)%N -> atom_matches true (Chr pc) ch = true <-> ch = pc.
Proof.
  intros H. cbn [atom_matches]. unfold chr_matches.
  rewrite ieq_uncased by assumption. apply N.eqb_eq.
Qed.

Lemma type_alternation_spec s m s' m' :
  In (s', m') (run true type_alternation s m)
  <-> exists ty, s = ty ++ s' /\ type_token ty /\ m' = m.
Proof.
  unfold type_alternation. rewrite run_alts.
  change (word "feat" :: _) with (map word (keys VALID_TYPES)). split.
  - intros (r & Hr & H). apply in_map_iff in Hr as (w & <- & Hw).
    apply run_word in H as (u & -> & H & ->). exists u.
    split; [reflexivity|]. split; [|reflexivity]. exists w. auto.
  - intros (ty & -> & (w & Hw & H) & ->). exists (word w). split.
    + apply in_map. assumption.
    + apply run_word. eauto.
Qed.

End Patterns.

Section Tails.
Context {U : UnicodeData}.

Lemma dot_run (d : str) :
  forallb (atom_matches true Dot) d = true <-> ~ In NL d.
Proof.
  induction d as [|ch d IH]; simpl.
  - split; [intros _ [] | reflexivity].
  - rewrite andb_true_iff, IH, negb_true_iff, N.eqb_neq. split.
    + intros [H1 H2] [H|H]; [congruence | contradiction].
    + intros H. split; [intros E | intros E]; apply H; auto.
Qed.

Lemma scope_run (sc : str) :
  forallb (atom_matches true az_hyphen) sc = forallb scope_char sc.
Proof.
  induction sc as [|ch sc IH]; cbn [forallb]; [reflexivity|].
  rewrite scope_char_matches, IH. reflexivity.
Qed.

Lemma letter_run (ty : str) :
  forallb (atom_matches true az) ty = forallb letter ty.
Proof.
  induction ty as [|ch ty IH]; cbn [forallb]; [reflexivity|].
  rewrite letter_matches, IH. reflexivity.
Qed.

Lemma sym_run (w : string) s m s' m' :
  (chr w < 65)%N ->
  In (s', m') (run true (sym w) s m) <-> s = chr w :: s' /\ m' = m.
Proof.
  intros Hw. unfold sym. rewrite run_Atom. split.
  - intros (ch & -> & H & ->). apply uncased_match in H; [|assumption].
    subst. auto.
  - intros [-> ->]. exists (chr w). repeat split.
    apply uncased_match; [assumption | reflexivity].
Qed.

Ltac sym_lt := vm_compute; reflexivity.

(** [(\([a-z-]+\))?], with and without the inner group. *)
Lemma scope_opt_format s m s' m' :
  In (s', m')
     (run true (Opt (Grp 2 (Cat (sym "(") (Cat (Plus az_hyphen) (sym ")")))))
        s m)
  <-> (exists sc, s = lit "(" ++ sc ++ lit ")" ++ s' /\ sc <> []
                  /\ forallb scope_char sc = true
                  /\ m' = (2, lit "(" ++ sc ++ lit ")") :: m)
      \/ (s' = s /\ m' = m).
Proof.
  rewrite run_Opt, run_Grp. split.
  - intros [(m1 & H & ->) | H]; [left | right; inversion H; auto].
    apply run_Cat in H as (s1 & m2 & H1 & H).
    apply sym_run in H1 as [-> ->]; [|sym_lt].
    apply run_Cat in H as (s2 & m3 & H2 & H).
    apply run_Plus in H2 as (sc & Hne & Hsc & -> & ->).
    apply sym_run in H as [-> ->]; [|sym_lt].
    rewrite scope_run in Hsc. exists sc. repeat split; try assumption.
    f_equal. f_equal.
    change (chr "(" :: sc ++ chr ")" :: s') with (lit "(" ++ sc ++ lit ")" ++ s').
    rewrite !app_assoc, taken_app. reflexivity.
  - intros [(sc & -> & Hne & Hsc & ->) | [-> ->]]; [left | right; reflexivity].
    exists m. split.
    + apply run_Cat. exists (sc ++ lit ")" ++ s'), m. split.
      * apply sym_run; [sym_lt | auto].
      * apply run_Cat. exists (lit ")" ++ s'), m. split.
        -- apply run_Plus. exists sc. rewrite scope_run. auto.
        -- apply sym_run; [sym_lt | auto].
    + rewrite !app_assoc, taken_app. reflexivity.
Qed.

Lemma scope_opt_fields s m s' m' :
  In (s', m')
     (run true
        (Opt (Grp 2 (Cat (sym "(") (Cat (Grp 3 (Plus az_hyphen)) (sym ")")))))
        s m)
  <-> (exists sc, s = lit "(" ++ sc ++ lit ")" ++ s' /\ sc <> []
                  /\ forallb scope_char sc = true
                  /\ m' = (2, lit "(" ++ sc ++ lit ")") :: (3, sc) :: m)
      \/ (s' = s /\ m' = m).
Proof.
  rewrite run_Opt, run_Grp. split.
  - intros [(m1 & H & ->) | H]; [left | right; inversion H; auto].
    apply run_Cat in H as (s1 & m2 & H1 & H).
    apply sym_run in H1 as [-> ->]; [|sym_lt].
    apply run_Cat in H as (s2 & m3 & H2 & H).
    apply run_Grp in H2 as (m4 & H2 & ->).
    apply run_Plus in H2 as (sc & Hne & Hsc & -> & ->).
    apply sym_run in H as [E ->]; [|sym_lt]. subst s2.
    rewrite scope_run in Hsc. exists sc. repeat split; try assumption.
    change (chr ")" :: s') with (lit ")" ++ s'). rewrite taken_app.
    f_equal. f_equal.
    change (chr "(" :: sc ++ lit ")" ++ s') with (lit "(" ++ sc ++ lit ")" ++ s').
    rewrite !app_assoc, taken_app. reflexivity.
  - intros [(sc & -> & Hne & Hsc & ->) | [-> ->]]; [left | right; reflexivity].
    exists ((3, sc) :: m). split.
    + apply run_Cat. exists (sc ++ lit ")" ++ s'), m. split.
      * apply sym_run; [sym_lt | auto].
      * apply run_Cat. exists (lit ")" ++ s'), ((3, sc) :: m). split.
        -- apply run_Grp. exists m. split; [|rewrite taken_app; reflexivity].
           apply run_Plus. exists sc. rewrite scope_run. auto.
        -- apply sym_run; [sym_lt | auto].
    + rewrite !app_assoc, taken_app. reflexivity.
Qed.

(** [(!)?] *)
Lemma bang_opt n s m s' m' :
  In (s', m') (run true (Opt (Grp n (sym "!"))) s m)
  <-> (s = lit "!" ++ s' /\ m' = (n, lit "!") :: m) \/ (s' = s /\ m' = m).
Proof.
  rewrite run_Opt, run_Grp. split.
  - intros [(m1 & H & ->) | H]; [left | right; inversion H; auto].
    apply sym_run in H as [-> ->]; [|sym_lt]. split; [reflexivity|].
    change (chr "!" :: s') with (lit "!" ++ s'). rewrite taken_app. reflexivity.
  - intros [[-> ->] | [-> ->]]; [left | right; reflexivity].
    exists m. split; [apply sym_run; [sym_lt | auto]|].
    rewrite taken_app. reflexivity.
Qed.

(** [: .+], with and without the group. *)
Lemma desc_format s m s' m' :
  In (s', m') (run true (Cat (sym ":") (Cat (sym " ") (Plus Dot))) s m)
  <-> exists d, s = lit ": " ++ d ++ s' /\ d <> [] /\ ~ In NL d /\ m' = m.
Proof.
  rewrite run_Cat. split.
  - intros (s1 & m1 & H1 & H). apply sym_run in H1 as [-> ->]; [|sym_lt].
    apply run_Cat in H as (s2 & m2 & H2 & H).
    apply sym_run in H2 as [-> ->]; [|sym_lt].
    apply run_Plus in H as (d & Hne & Hd & -> & ->). apply dot_run in Hd.
    exists d. auto.
  - intros (d & -> & Hne & Hd & ->). exists (lit " " ++ d ++ s'), m. split.
    + apply sym_run; [sym_lt | auto].
    + apply run_Cat. exists (d ++ s'), m. split.
      * apply sym_run; [sym_lt | auto].
      * apply run_Plus. exists d. rewrite dot_run. auto.
Qed.

Lemma desc_fields s m s' m' :
  In (s', m') (run true (Cat (sym ":") (Cat (sym " ") (Grp 5 (Plus Dot)))) s m)
  <-> exists d, s = lit ": " ++ d ++ s' /\ d <> [] /\ ~ In NL d
                /\ m' = (5, d) :: m.
Proof.
  rewrite run_Cat. split.
  - intros (s1 & m1 & H1 & H). apply sym_run in H1 as [-> ->]; [|sym_lt].
    apply run_Cat in H as (s2 & m2 & H2 & H).
    apply sym_run in H2 as [-> ->]; [|sym_lt].
    apply run_Grp in H as (m3 & H & ->).
    apply run_Plus in H as (d & Hne & Hd & -> & ->). apply dot_run in Hd.
    exists d. rewrite (taken_app d s'). auto.
  - intros (d & -> & Hne & Hd & ->). exists (lit " " ++ d ++ s'), m. split.
    + apply sym_run; [sym_lt | auto].
    + apply run_Cat. exists (d ++ s'), m. split.
      * apply sym_run; [sym_lt | auto].
      * apply run_Grp. exists m. split; [|rewrite taken_app; reflexivity].
        apply run_Plus. exists d. rewrite dot_run. auto.
Qed.

Lemma format_tail_spec s m s' :
  (exists m', In (s', m') (run true format_tail s m))
  <-> exists scope bang d,
        s = scope ++ bang ++ lit ": " ++ d ++ s' /\ tail_shape scope bang d.
Proof.
  unfold format_tail, tail_shape. split.
  - intros (m' & H). apply run_Cat in H as (s1 & m1 & H1 & H).
    apply run_Cat in H as (s2 & m2 & H2 & H).
    apply desc_format in H as (d & -> & Hne & Hd & ->).
    apply bang_opt in H2. apply scope_opt_format in H1.
    destruct H1 as [(sc & E1 & Hsc & Hok & E1') | [E1 E1']];
      destruct H2 as [[E2 E2'] | [E2 E2']]; subst.
    + exists (lit "(" ++ sc ++ lit ")"), (lit "!"), d.
      rewrite <- !app_assoc. repeat split; eauto.
    + exists (lit "(" ++ sc ++ lit ")"), [], d.
      rewrite <- !app_assoc. repeat split; eauto.
    + exists [], (lit "!"), d. repeat split; eauto.
    + exists [], [], d. repeat split; eauto.
  - intros (scope & bang & d & -> & Hs & Hb & Hne & Hd).
    assert (H1 : exists m1, In (bang ++ lit ": " ++ d ++ s', m1)
               (run true
                  (Opt (Grp 2 (Cat (sym "(") (Cat (Plus az_hyphen) (sym ")")))))
                  (scope ++ bang ++ lit ": " ++ d ++ s') m)).
    { destruct Hs as [-> | (sc & -> & Hsc & Hok)]; eexists;
        apply scope_opt_format; [right; eauto | left].
      exists sc. rewrite <- !app_assoc. eauto. }
    destruct H1 as (m1 & H1).
    assert (H2 : exists m2, In (lit ": " ++ d ++ s', m2)
               (run true (Opt (Grp 3 (sym "!")))
                  (bang ++ lit ": " ++ d ++ s') m1)).
    { destruct Hb as [-> | ->]; eexists; apply bang_opt; [right | left]; eauto. }
    destruct H2 as (m2 & H2).
    exists m2. apply run_Cat. exists (bang ++ lit ": " ++ d ++ s'), m1.
    split; [assumption|]. apply run_Cat. exists (lit ": " ++ d ++ s'), m2.
    split; [assumption|]. apply desc_format. eauto.
Qed.

Lemma fields_tail_inv s m s' m' :
  In (s', m') (run true fields_tail s m) ->
  exists scope bang d,
    s = scope ++ bang ++ lit ": " ++ d ++ s' /\ tail_shape scope bang d
    /\ group m' 5 = Some d /\ group m' 1 = group m 1.
Proof.
  unfold fields_tail, tail_shape. intros H.
  apply run_Cat in H as (s1 & m1 & H1 & H).
  apply run_Cat in H as (s2 & m2 & H2 & H).
  apply desc_fields in H as (d & -> & Hne & Hd & ->).
  apply bang_opt in H2. apply scope_opt_fields in H1.
  destruct H1 as [(sc & E1 & Hsc & Hok & E1') | [E1 E1']];
    destruct H2 as [[E2 E2'] | [E2 E2']]; subst.
  + exists (lit "(" ++ sc ++ lit ")"), (lit "!"), d.
    rewrite <- !app_assoc. repeat split; eauto.
  + exists (lit "(" ++ sc ++ lit ")"), [], d.
    rewrite <- !app_assoc. repeat split; eauto.
  + exists [], (lit "!"), d. repeat split; eauto.
  + exists [], [], d. repeat split; eauto.
Qed.

Lemma fields_tail_complete s' m scope bang d :
  tail_shape scope bang d ->
  exists m', In (s', m')
               (run true fields_tail (scope ++ bang ++ lit ": " ++ d ++ s') m).
Proof.
  intros (Hs & Hb & Hne & Hd). unfold fields_tail.
  assert (H1 : exists m1, In (bang ++ lit ": " ++ d ++ s', m1)
             (run true
                (Opt (Grp 2 (Cat (sym "(")
                               (Cat (Grp 3 (Plus az_hyphen)) (sym ")")))))
                (scope ++ bang ++ lit ": " ++ d ++ s') m)).
  { destruct Hs as [-> | (sc & -> & Hsc & Hok)]; eexists;
      apply scope_opt_fields; [right; eauto | left].
    exists sc. rewrite <- !app_assoc. eauto. }
  destruct H1 as (m1 & H1).
  assert (H2 : exists m2, In (lit ": " ++ d ++ s', m2)
             (run true (Opt (Grp 4 (sym "!")))
                (bang ++ lit ": " ++ d ++ s') m1)).
  { destruct Hb as [-> | ->]; eexists; apply bang_opt; [right | left]; eauto. }
  destruct H2 as (m2 & H2).
  eexists. apply run_Cat. exists (bang ++ lit ": " ++ d ++ s'), m1.
  split; [assumption|]. apply run_Cat. exists (lit ": " ++ d ++ s'), m2.
  split; [assumption|]. apply desc_fields. eauto.
Qed.

(** What follows the type is not a letter. *)
Lemma tail_first scope bang d rest :
  tail_shape scope bang d ->
  exists c0 r, scope ++ bang ++ lit ": " ++ d ++ rest = c0 :: r
               /\ letter c0 = false
               /\ (c0 = chr "(" -> scope <> []).
Proof.
  intros (Hs & Hb & _).
  destruct Hs as [-> | (sc & -> & _)]; [destruct Hb as [-> | ->]|];
    eexists; eexists; (split; [reflexivity|]); split; try reflexivity;
    try discriminate.
Qed.

(** The header pattern of the format check matches exactly the texts that
    start with a type, an optional scope, an optional [!], [": "] and a
    description. *)
Lemma format_match_spec (h : str) :
  re_match format_pattern h true <> None
  <-> exists ty scope bang d rest,
        h = ty ++ scope ++ bang ++ lit ": " ++ d ++ rest
        /\ type_token ty /\ tail_shape scope bang d.
Proof.
  rewrite re_match_some. unfold format_pattern. split.
  - intros ([s' m'] & H). apply run_Cat in H as (s1 & m1 & H1 & H).
    apply run_Grp in H1 as (m0 & H1 & _).
    apply type_alternation_spec in H1 as (ty & -> & Hty & _).
    destruct (proj1 (format_tail_spec s1 m1 s') (ex_intro _ m' H))
      as (scope & bang & d & -> & Ht).
    exists ty, scope, bang, d, s'. auto.
  - intros (ty & scope & bang & d & rest & -> & Hty & Ht).
    destruct (proj2 (format_tail_spec (scope ++ bang ++ lit ": " ++ d ++ rest)
                       ((1, ty) :: []) rest)) as (m' & H); [eauto 6|].
    exists (rest, m'). apply run_Cat. eexists _, _. split; [|exact H].
    apply run_Grp. exists []. split; [|rewrite taken_app; reflexivity].
    apply type_alternation_spec. eauto.
Qed.

Lemma fields_match_inv (h : str) (m : captures) :
  re_match fields_pattern h true = Some m ->
  exists ty scope bang d rest,
    h = ty ++ scope ++ bang ++ lit ": " ++ d ++ rest
    /\ ty <> [] /\ forallb letter ty = true /\ tail_shape scope bang d
    /\ group m 1 = Some ty /\ group m 5 = Some d.
Proof.
  intros H. apply re_match_In in H as (s' & H). unfold fields_pattern in H.
  apply run_Cat in H as (s1 & m1 & H1 & H).
  apply run_Grp in H1 as (m0 & H1 & ->).
  apply run_Plus in H1 as (ty & Hne & Hty & -> & ->).
  rewrite letter_run in Hty. rewrite taken_app in H.
  apply fields_tail_inv in H as (scope & bang & d & -> & Ht & H5 & H1).
  exists ty, scope, bang, d, s'. repeat split; try assumption; apply Ht.
Qed.

Lemma fields_match_complete (h ty scope bang d rest : str) :
  h = ty ++ scope ++ bang ++ lit ": " ++ d ++ rest ->
  ty <> [] -> forallb letter ty = true -> tail_shape scope bang d ->
  re_match fields_pattern h true <> None.
Proof.
  intros -> Hne Hty Ht. apply re_match_some. unfold fields_pattern.
  destruct (fields_tail_complete rest ((1, ty) :: []) Ht) as (m' & H).
  exists (rest, m'). apply run_Cat. eexists _, _. split; [|exact H].
  apply run_Grp. exists []. split; [|rewrite taken_app; reflexivity].
  apply run_Plus. exists ty. rewrite letter_run. auto.
Qed.

(** Whatever the format check accepts, the field extraction matches. *)
Lemma format_implies_fields (h : str) :
  re_match format_pattern h true <> None ->
  re_match fields_pattern h true <> None.
Proof.
  intros H. apply format_match_spec in H
    as (ty & scope & bang & d & rest & E & Hty & Ht).
  apply type_token_letters in Hty as [Hne Hty].
  eapply fields_match_complete; eassumption.
Qed.

(** ... and the header has a [": "]. *)
Lemma format_has_colon (h : str) :
  re_match format_pattern h true <> None -> find h (lit ": ") <> (-1)%Z.
Proof.
  intros H. apply format_match_spec in H
    as (ty & scope & bang & d & rest & -> & _).
  replace (ty ++ scope ++ bang ++ lit ": " ++ d ++ rest)
    with ((ty ++ scope ++ bang) ++ lit ": " ++ (d ++ rest))
    by (rewrite <- !app_assoc; reflexivity).
  apply find_app.
Qed.

(** The type of a header is determined. *)
Lemma header_type_unique ty scope bang d rest ty' scope' bang' d' rest' :
  ty ++ scope ++ bang ++ lit ": " ++ d ++ rest
  = ty' ++ scope' ++ bang' ++ lit ": " ++ d' ++ rest' ->
  forallb letter ty = true -> forallb letter ty' = true ->
  tail_shape scope bang d -> tail_shape scope' bang' d' ->
  ty = ty'
  /\ scope ++ bang ++ lit ": " ++ d ++ rest
     = scope' ++ bang' ++ lit ": " ++ d' ++ rest'.
Proof.
  intros E Hty Hty' Ht Ht'.
  destruct (tail_first rest Ht) as (c0 & r & E0 & H0 & _).
  destruct (tail_first rest' Ht') as (c0' & r' & E0' & H0' & _).
  rewrite E0, E0' in *.
  exact (span_unique letter ty ty' c0 c0' r r' E Hty Hty' H0 H0').
Qed.

End Tails.

(** ** Running the monad *)

Lemma emits_ret A (a : A) (P : A -> list str -> list str -> Prop) :
  P a [] [] -> emits (ret a) P.
Proof.
  intros H [e w]. exists a, [], []. unfold ret. simpl.
  rewrite !app_nil_r. auto.
Qed.

Lemma emits_bind A B (c : M A) (k : A -> M B) P Q :
  emits c P ->
  (forall a E W, P a E W ->
                 emits (k a) (fun b E' W' => Q b (E ++ E') (W ++ W'))) ->
  emits (bind c k) Q.
Proof.
  intros Hc Hk st. destruct (Hc st) as (a & E & W & Ec & HP).
  destruct (Hk a E W HP (Validator (errors st ++ E) (warnings st ++ W)))
    as (b & E' & W' & Ek & HQ).
  exists b, (E ++ E'), (W ++ W'). unfold bind. rewrite Ec, Ek. simpl.
  rewrite !app_assoc. auto.
Qed.

Lemma emits_weaken A (c : M A) (P Q : A -> list str -> list str -> Prop) :
  emits c P -> (forall a E W, P a E W -> Q a E W) -> emits c Q.
Proof.
  intros Hc H st. destruct (Hc st) as (a & E & W & Ec & HP). eauto 6.
Qed.

Lemma emits_error (msg : str) A (k : M A) Q :
  emits k (fun b E W => Q b (msg :: E) W) ->
  emits (append_error msg ;; k) Q.
Proof.
  intros Hk. eapply emits_bind with (P := fun _ E W => E = [msg] /\ W = []).
  - intros st. exists tt, [msg], []. unfold append_error.
    rewrite app_nil_r. auto.
  - intros _ E W [-> ->]. exact Hk.
Qed.

Lemma emits_warning (msg : str) A (k : M A) Q :
  emits k (fun b E W => Q b E (msg :: W)) ->
  emits (append_warning msg ;; k) Q.
Proof.
  intros Hk. eapply emits_bind with (P := fun _ E W => E = [] /\ W = [msg]).
  - intros st. exists tt, [], [msg]. unfold append_warning.
    rewrite app_nil_r. auto.
  - intros _ E W [-> ->]. exact Hk.
Qed.

Lemma emits_skip A (k : M A) Q : emits k Q -> emits (ret tt ;; k) Q.
Proof.
  intros Hk. eapply emits_bind with (P := fun _ E W => E = [] /\ W = []).
  - apply emits_ret. auto.
  - intros _ E W [-> ->]. exact Hk.
Qed.

Lemma emits_when (b : bool) (msg : str) A (k : M A) Q :
  emits k (fun r E W => Q r E (if b then msg :: W else W)) ->
  emits (when b (append_warning msg) ;; k) Q.
Proof.
  destruct b; simpl; [apply emits_warning | apply emits_skip].
Qed.

Lemma emits_getitem A (l : list A) (i : nat) (x : A) B (k : A -> M B) Q :
  nth_error l i = Some x -> emits (k x) Q -> emits (y <- getitem l i ;; k y) Q.
Proof.
  intros E Hk. eapply emits_bind with (P := fun y E W => y = x /\ E = [] /\ W = []).
  - unfold getitem. rewrite E. apply emits_ret. auto.
  - intros y E' W (-> & -> & ->). exact Hk.
Qed.

Lemma header_nth (message : str) :
  nth_error (split NL (strip message)) 0 = Some (header_of message).
Proof.
  unfold header_of, lines_of.
  destruct (split_cons NL (strip message)) as (h & rest & ->). reflexivity.
Qed.

(** ** The four checks and the whole pass *)

Section Checks.
Context {U : UnicodeData}.

Lemma emits_let A (a : A) B (k : A -> M B) Q :
  emits (k a) Q -> emits (x <- ret a ;; k x) Q.
Proof.
  intros Hk. eapply emits_bind with (P := fun y E W => y = a /\ E = [] /\ W = []).
  - apply emits_ret. auto.
  - intros y E' W (-> & -> & ->). exact Hk.
Qed.

Lemma validate_format_spec (message : str) :
  emits (validate_format message) (format_post (header_of message)).
Proof.
  unfold validate_format.
  pose proof (header_nth message) as Hh. set (h := header_of message) in *.
  destruct (split_cons NL (strip message)) as (h0 & rest & E).
  rewrite E in *. cbn [is_empty]. apply emits_getitem with (x := h); [exact Hh|].
  unfold format_post. destruct (Nat.ltb 72 (length h)).
  - apply emits_error, emits_ret. auto.
  - unfold when. destruct (Nat.ltb 50 (length h));
      [apply emits_warning | apply emits_skip];
      destruct (re_match format_pattern h true);
      try apply emits_error; apply emits_ret; auto.
Qed.

Lemma validate_type_and_scope_spec (message : str) :
  emits (validate_type_and_scope message) (fields_post (header_of message)).
Proof.
  unfold validate_type_and_scope.
  apply emits_getitem with (x := header_of message); [apply header_nth|].
  set (h := header_of message). unfold fields_post.
  destruct (re_match fields_pattern h true) as [m|] eqn:Em.
  - destruct (fields_match_inv _ Em)
      as (ty & scope & bang & d & rest & _ & _ & _ & (_ & _ & Hd & _) & H1 & H5).
    rewrite H1, H5. apply emits_let.
    assert (Ht : truthy (Some d) = true) by (destruct d; [congruence | reflexivity]).
    rewrite Ht. cbn [negb].
    destruct (mem (lower ty) (keys VALID_TYPES)) eqn:Hm; cbn [negb].
    + assert (K : forall W0,
                 not_vague W0 ->
                 emits (d0 <- ret d ;;
                        first <- getitem d 0 ;;
                        when (isupper first)
                          (append_warning
                             (lit "Description should start with lowercase letter")) ;;
                        when (endswith d (lit "."))
                          (append_warning
                             (lit "Description should not end with a period")) ;;
                        when match group m 4 with
                             | Some g => str_eqb g (lit "!")
                             | None => false
                             end
                          (append_warning
                             (lit "Breaking change detected - ensure CHANGELOG.md is updated")) ;;
                        ret true)
                   (fun b E W =>
                      not_vague (W0 ++ W) /\ b = true /\ E = [])).
      { intros W0 HW0. apply emits_let. destruct d as [|d0 d]; [congruence|].
        apply emits_getitem with (x := d0); [reflexivity|].
        do 3 apply emits_when. apply emits_ret. split; [|auto].
        apply Forall_app. split; [assumption|].
        destruct (isupper d0), (endswith (d0 :: d) (lit ".")),
          (match group m 4 with Some g => str_eqb g (lit "!") | None => false end);
          repeat constructor. }
      destruct (group m 3) as [sc|].
      * apply emits_when.
        eapply emits_weaken; [apply (K (if truthy (Some sc) && negb (mem sc VALID_SCOPES)
                                          then [unknown_scope_message sc] else []))|].
        -- destruct (truthy (Some sc) && negb (mem sc VALID_SCOPES));
             repeat constructor.
        -- cbv beta. intros b E W [HW HE]. split.
           ++ destruct (truthy (Some sc) && negb (mem sc VALID_SCOPES)); exact HW.
           ++ exists ty. rewrite Hm. auto.
      * apply emits_skip. eapply emits_weaken; [apply (K []); constructor|].
        cbv beta. intros b E W [HW HE]. split; [assumption|].
        exists ty. rewrite Hm. auto.
    + apply emits_error, emits_ret. split; [constructor|].
      exists ty. rewrite Hm. eauto.
  - apply emits_ret. split; [constructor | auto].
Qed.

Lemma for_each_warnings A (l : list A) (cond : A -> bool) (msg : A -> str) :
  (forall x, is_vague_warning (msg x) = false) ->
  emits (for_each l (fun x => when (cond x) (append_warning (msg x))))
    (fun _ E W => E = [] /\ not_vague W).
Proof.
  intros Hmsg. induction l as [|x l IH]; cbn [for_each].
  - apply emits_ret. split; [reflexivity | constructor].
  - apply emits_when. eapply emits_weaken; [exact IH|]. cbv beta.
    intros _ E W [-> HW]. split; [reflexivity|].
    destruct (cond x); [constructor; auto | assumption].
Qed.

Lemma validate_body_and_footer_spec (message : str) :
  emits (validate_body_and_footer message) (body_post (lines_of message)).
Proof.
  unfold validate_body_and_footer, lines_of, body_post.
  destruct (split_cons NL (strip message)) as (h & rest & E). rewrite E.
  destruct rest as [|second rest].
  - apply emits_ret. split; [constructor | auto].
  - cbn [length Nat.ltb Nat.leb].
    eapply emits_bind
      with (P := fun a E W => a = negb (is_empty (strip second))
                              /\ E = [] /\ W = []).
    + apply emits_getitem with (x := second); [reflexivity|].
      apply emits_ret. auto.
    + intros a E0 W0 (-> & -> & ->). cbn [app].
      destruct (is_empty (strip second)); cbn [negb].
      * eapply emits_bind; [apply for_each_warnings; reflexivity|].
        cbv beta. intros _ E0 W0 [-> HW]. apply emits_ret.
        rewrite app_nil_r. auto.
      * apply emits_error, emits_ret. split; [constructor | auto].
Qed.

Lemma validate_content_quality_spec (message : str) :
  emits (validate_content_quality message) (quality_post (header_of message)).
Proof.
  unfold validate_content_quality.
  apply emits_getitem with (x := header_of message); [apply header_nth|].
  set (h := header_of message). unfold quality_post. cbv zeta.
  destruct (Z.eqb (find h (lit ": ")) (-1)).
  - apply emits_ret. auto.
  - fold (description_of h). set (d := description_of h).
    do 2 apply emits_when.
    eapply emits_bind with (P := fun _ E W => E = [] /\ W = []).
    + destruct (split_ws d) as [|w ws]; cbn [is_empty negb].
      * apply emits_ret. auto.
      * apply emits_getitem with (x := w); [reflexivity|]. apply emits_ret. auto.
    + intros first_word E W [-> ->]. apply emits_when, emits_ret.
      split; [reflexivity|]. split; [reflexivity|].
      change (existsb (fun word => str_eqb (strip (lower d)) word) vague_words)
        with (mem (strip (lower d)) vague_words).
      eexists. split; cycle 1.
      * destruct (mem (strip (lower d)) vague_words); cbn [app]; reflexivity.
      * destruct (Nat.ltb (length d) 10),
          (negb (mem first_word imperative_indicators)); repeat constructor.
Qed.

(** The whole pass on a message that is not blank. *)
Lemma validate_commit_message_spec (message : str) (st : validator) :
  strip message <> [] ->
  exists fb fE fW,
    format_post (header_of message) fb fE fW
    /\ if (fb : bool) then
         exists tb tE tW bb bE bW qb qE qW,
           fields_post (header_of message) tb tE tW
           /\ body_post (lines_of message) bb bE bW
           /\ quality_post (header_of message) qb qE qW
           /\ validate_commit_message message st
              = Ok ((tb && bb && qb, fE ++ tE ++ bE ++ qE,
                     fW ++ tW ++ bW ++ qW),
                    Validator (fE ++ tE ++ bE ++ qE) (fW ++ tW ++ bW ++ qW))
       else validate_commit_message message st
            = Ok ((false, fE, fW), Validator fE fW).
Proof.
  intros Hne. unfold validate_commit_message.
  assert (Hm : is_empty message || is_empty (strip message) = false).
  { destruct message; [exfalso; apply Hne; reflexivity|].
    destruct (strip (c :: message)); [congruence | reflexivity]. }
  rewrite Hm.
  destruct (validate_format_spec message (Validator [] []))
    as (fb & fE & fW & Ef & Pf). cbn [errors warnings app] in Ef.
  exists fb, fE, fW. split; [exact Pf|].
  destruct fb.
  - destruct (validate_type_and_scope_spec message (Validator fE fW))
      as (tb & tE & tW & Et & Pt). cbn [errors warnings] in Et.
    destruct (validate_body_and_footer_spec message
                (Validator (fE ++ tE) (fW ++ tW)))
      as (bb & bE & bW & Eb & Pb). cbn [errors warnings] in Eb.
    destruct (validate_content_quality_spec message
                (Validator ((fE ++ tE) ++ bE) ((fW ++ tW) ++ bW)))
      as (qb & qE & qW & Eq & Pq). cbn [errors warnings] in Eq.
    exists tb, tE, tW, bb, bE, bW, qb, qE, qW.
    repeat (split; [assumption|]).
    unfold bind. rewrite Ef, Et, Eb, Eq. cbn [errors warnings andb].
    rewrite <- !app_assoc. reflexivity.
  - unfold bind, ret. rewrite Ef. reflexivity.
Qed.

Lemma validate_commit_message_blank (message : str) (st : validator) :
  strip message = [] ->
  validate_commit_message message st
  = Ok ((false, [empty_message], []), Validator [empty_message] []).
Proof.
  intros E. unfold validate_commit_message. rewrite E. cbn [is_empty].
  rewrite orb_true_r. reflexivity.
Qed.

End Checks.

(** ** Headers *)

Lemma header_no_nl (message : str) : ~ In NL (header_of message).
Proof.
  unfold header_of, lines_of.
  pose proof (split_no_sep NL (strip message)) as H.
  destruct (split NL (strip message)); [intros [] | inversion H; assumption].
Qed.

Lemma header_blank (message : str) :
  strip message = [] -> header_of message = [].
Proof. unfold header_of, lines_of. intros ->. reflexivity. Qed.

Lemma forallb_weaken A (p q : A -> bool) (l : list A) :
  (forall x, p x = true -> q x = true) ->
  forallb p l = true -> forallb q l = true.
Proof.
  intros H. induction l as [|x l IH]; simpl; [reflexivity|].
  rewrite !andb_true_iff. intros [H1 H2]. auto.
Qed.

Lemma lower_ascii {U : UnicodeData} (s : str) :
  forallb is_ascii s = true -> lower s = map ascii_lower s.
Proof. unfold lower. intros ->. reflexivity. Qed.

Section Conventional.
Context {U : UnicodeData}.
Variable ok : char -> bool.
Hypothesis ok_scope : forall ch, ok ch = true -> scope_char ch = true.

(** A header of the conventional shape is matched by both patterns, and the
    type the second one extracts is one of the valid types. *)
Lemma conventional_matches (h : str) :
  conventional_header ok h -> ~ In NL h ->
  re_match format_pattern h true <> None
  /\ forall m g, re_match fields_pattern h true = Some m ->
                 group m 1 = Some g ->
                 mem (lower g) (keys VALID_TYPES) = true.
Proof.
  intros (ty & scope & bang & d & E & Hty & Hs & Hb & Hd) Hnl.
  destruct (type_token_of_mem _ Hty) as [Htok Hascii].
  assert (Ht : tail_shape scope bang d).
  { repeat split; try assumption.
    - destruct Hs as [-> | (sc & -> & Hne & Hsc)]; [left; reflexivity | right].
      exists sc. repeat split; try assumption.
      apply forallb_weaken with (p := ok); assumption.
    - intros Hin. apply Hnl. rewrite E. rewrite !in_app_iff. auto. }
  split.
  - apply format_match_spec. exists ty, scope, bang, d, [].
    rewrite app_nil_r. auto.
  - intros m g Hm Hg.
    destruct (fields_match_inv _ Hm)
      as (ty' & scope' & bang' & d' & rest' & E' & _ & Hty' & Ht' & H1 & _).
    rewrite H1 in Hg. inversion Hg; subst g.
    assert (ty' = ty) as ->.
    { apply type_token_letters in Htok as [_ Hl].
      rewrite <- (app_nil_r d) in E. rewrite E in E'.
      symmetry. eapply header_type_unique; eassumption. }
    rewrite lower_ascii by assumption. assumption.
Qed.

(** Such a message, with a header of at most 72 characters and its body
    set apart, passes every check. *)
Lemma conventional_valid (message : str) (st : validator) :
  length (header_of message) <= 72 ->
  conventional_header ok (header_of message) ->
  body_separated (lines_of message) ->
  exists W,
    validate_commit_message message st = Ok ((true, [], W), Validator [] W).
Proof.
  intros Hlen Hconv Hbody.
  destruct (conventional_matches Hconv (header_no_nl message)) as [Hf Hg].
  assert (Hne : strip message <> []).
  { intros E. apply header_blank in E. rewrite E in Hf. apply Hf. reflexivity. }
  pose proof (format_implies_fields _ Hf) as Hfields.
  pose proof (format_has_colon _ Hf) as Hcolon.
  destruct (validate_commit_message_spec message st Hne)
    as (fb & fE & fW & Pf & H).
  unfold format_post in Pf.
  replace (Nat.ltb 72 (length (header_of message))) with false in Pf
    by (symmetry; apply Nat.ltb_ge; assumption).
  destruct Pf as [_ Pf].
  destruct (re_match format_pattern (header_of message) true) eqn:Ef;
    [|congruence].
  destruct Pf as [-> ->].
  destruct H as (tb & tE & tW & bb & bE & bW & qb & qE & qW
                 & (_ & Pt) & (_ & Pb) & (-> & Pq) & ->).
  destruct (re_match fields_pattern (header_of message) true) as [m|] eqn:Em;
    [|congruence].
  destruct Pt as (g & H1 & _ & Pt). rewrite (Hg m g eq_refl H1) in Pt.
  destruct Pt as [-> ->].
  apply Z.eqb_neq in Hcolon. rewrite Hcolon in Pq. destruct Pq as [-> _].
  assert (bb = true /\ bE = []) as [-> ->].
  { unfold body_separated in Hbody.
    destruct (lines_of message) as [|h [|second rest]]; try tauto.
    rewrite Hbody in Pb. exact Pb. }
  cbn [andb app]. eauto.
Qed.

End Conventional.

(** * The claims *)

(** C1, as stated, fails: a header of the conventional shape that is longer
    than 72 characters is rejected by the length guard of the format check.
    Here the header is [feat(cli): ] followed by seventy [a]. *)
Lemma C1_counterexample :
  let message := lit "feat(cli): " ++ repeat (chr "a") 70 in
  conventional_header lower_scope_char (header_of message)
  /\ body_separated (lines_of message)
  /\ validate (U := ascii_only) message
     = Ok (false, [lit "Header too long: 81 chars (max: 72)"], []).
Proof.
  cbv zeta. split; [|split].
  - exists (lit "feat"), (lit "(cli)"), [], (repeat (chr "a") 70).
    split; [vm_compute; reflexivity|].
    split; [vm_compute; reflexivity|].
    split; [right; exists (lit "cli"); repeat split; discriminate|].
    split; [left; reflexivity | discriminate].
  - vm_compute. exact I.
  - vm_compute. reflexivity.
Qed.

(** C1 (amended): every message whose header has at most 72 characters and
    the shape [type(scope)?!?: description], with the type one of the
    fourteen (in any letter case), a scope of lowercase letters and hyphens
    and a non-empty description, and which has no body or a blank second
    line, is valid: [validate_commit_message] returns [is_valid = True] and
    no error. *)
Theorem C1_conventional_message_valid {U : UnicodeData}
    (message : str) (st : validator) :
  length (header_of message) <= 72 ->
  conventional_header lower_scope_char (header_of message) ->
  body_separated (lines_of message) ->
  exists W,
    validate_commit_message message st = Ok ((true, [], W), Validator [] W).
Proof.
  apply conventional_valid. exact lower_scope_char_ok.
Qed.

Lemma C1_witness :
  exists W,
    validate_commit_message (U := ascii_only)
      (lit "feat(cli)!: add thing" ++ [NL; NL] ++ lit "Closes #12")
      (Validator [] [])
    = Ok ((true, [], W), Validator [] W).
Proof.
  apply C1_conventional_message_valid.
  - vm_compute. lia.
  - exists (lit "feat"), (lit "(cli)"), (lit "!"), (lit "add thing").
    split; [vm_compute; reflexivity|].
    split; [vm_compute; reflexivity|].
    split; [right; exists (lit "cli"); repeat split; discriminate|].
    split; [right; reflexivity | discriminate].
  - vm_compute. reflexivity.
Defined.

(** C2: [is_valid] is true exactly when no error was appended; and on a
    message that passes the format check, the type check and the body check
    fail only with an error, and the quality check does not fail. *)
Theorem C2_valid_iff_no_errors {U : UnicodeData}
    (message : str) (st : validator) :
  (exists is_valid E W st',
     validate_commit_message message st = Ok ((is_valid, E, W), st')
     /\ (is_valid = true <-> E = []))
  /\ (forall s, exists b s',
        validate_format message s = Ok (b, s')
        /\ (b = false -> exists e, errors s' = errors s ++ [e])
        /\ (b = true ->
            (forall s1, exists b1 s1',
               validate_type_and_scope message s1 = Ok (b1, s1')
               /\ (b1 = false -> exists e, errors s1' = errors s1 ++ [e]))
            /\ (forall s2, exists b2 s2',
                  validate_body_and_footer message s2 = Ok (b2, s2')
                  /\ (b2 = false -> exists e, errors s2' = errors s2 ++ [e]))
            /\ (forall s3, exists s3',
                  validate_content_quality message s3 = Ok (true, s3')))).
Proof.
  split.
  - destruct (strip message) eqn:Es.
    + rewrite (validate_commit_message_blank message st Es).
      do 4 eexists. split; [reflexivity|]. split; discriminate.
    + assert (Hne : strip message <> []) by congruence.
      destruct (validate_commit_message_spec message st Hne)
        as (fb & fE & fW & Pf & H).
      unfold format_post in Pf. destruct fb.
      * destruct H as (tb & tE & tW & bb & bE & bW & qb & qE & qW
                       & (_ & Pt) & (_ & Pb) & (-> & Pq) & ->).
        do 4 eexists. split; [reflexivity|].
        destruct (Nat.ltb 72 (length (header_of message)));
          [destruct Pf; discriminate|].
        destruct Pf as [_ Pf].
        destruct (re_match format_pattern (header_of message) true) eqn:Ef;
          [|destruct Pf; discriminate].
        destruct Pf as [_ ->].
        assert (Hf : re_match format_pattern (header_of message) true <> None)
          by congruence.
        pose proof (format_implies_fields _ Hf) as Hfields.
        pose proof (format_has_colon _ Hf) as Hcolon.
        apply Z.eqb_neq in Hcolon. rewrite Hcolon in Pq. destruct Pq as [-> _].
        destruct (re_match fields_pattern (header_of message) true);
          [|congruence].
        destruct Pt as (g & _ & _ & Pt). rewrite !app_nil_r. cbn [app].
        assert (Hb : (bb = true /\ bE = []) \/ (bb = false /\ exists e, bE = [e])).
        { destruct (lines_of message) as [|h [|second rest]];
            try (left; tauto).
          destruct (is_empty (strip second)); [left; tauto | right].
          destruct Pb as (-> & -> & _). eauto. }
        destruct (mem (lower g) (keys VALID_TYPES));
          [destruct Pt as [-> ->] | destruct Pt as [-> [e ->]]];
          destruct Hb as [[-> ->] | [-> [e' ->]]]; cbn [andb app];
          split; (reflexivity || discriminate).
      * rewrite H. do 4 eexists. split; [reflexivity|].
        split; [discriminate|]. intros ->.
        destruct (Nat.ltb 72 (length (header_of message)));
          [destruct Pf as (_ & Pf & _); discriminate|].
        destruct Pf as [_ Pf].
        destruct (re_match format_pattern (header_of message) true);
          destruct Pf; discriminate.
  - intros s. destruct (validate_format_spec message s)
      as (b & E & W & -> & Pf).
    exists b. eexists. split; [reflexivity|]. cbn [errors].
    unfold format_post in Pf.
    destruct (Nat.ltb 72 (length (header_of message))).
    { destruct Pf as (-> & -> & _). split; [eauto | discriminate]. }
    destruct Pf as [_ Pf].
    destruct (re_match format_pattern (header_of message) true) eqn:Ef.
    2:{ destruct Pf as (-> & ->). split; [eauto | discriminate]. }
    destruct Pf as [-> ->]. split; [discriminate|]. intros _.
    assert (Hf : re_match format_pattern (header_of message) true <> None)
      by congruence.
    pose proof (format_implies_fields _ Hf) as Hfields.
    pose proof (format_has_colon _ Hf) as Hcolon.
    split; [|split].
    + intros s1. destruct (validate_type_and_scope_spec message s1)
        as (b1 & E1 & W1 & -> & _ & Pt).
      exists b1. eexists. split; [reflexivity|]. cbn [errors]. intros ->.
      destruct (re_match fields_pattern (header_of message) true);
        [|congruence].
      destruct Pt as (g & _ & _ & Pt).
      destruct (mem (lower g) (keys VALID_TYPES));
        [destruct Pt; discriminate|].
      destruct Pt as [_ [e ->]]. eauto.
    + intros s2. destruct (validate_body_and_footer_spec message s2)
        as (b2 & E2 & W2 & -> & _ & Pb).
      exists b2. eexists. split; [reflexivity|]. cbn [errors]. intros ->.
      destruct (lines_of message) as [|h [|second rest]];
        try (destruct Pb; discriminate).
      destruct (is_empty (strip second)); [destruct Pb; discriminate|].
      destruct Pb as (_ & -> & _). eauto.
    + intros s3. destruct (validate_content_quality_spec message s3)
        as (b3 & E3 & W3 & -> & _ & Pq).
      apply Z.eqb_neq in Hcolon. rewrite Hcolon in Pq. destruct Pq as [-> _].
      eexists. reflexivity.
Qed.

(** C3: a header longer than 72 characters makes the message invalid with
    the single error [Header too long: N chars (max: 72)], which mentions
    [too long]; nothing else is reported, the other three checks are not
    run. *)
Theorem C3_header_too_long {U : UnicodeData}
    (message : str) (st : validator) :
  72 < length (header_of message) ->
  validate_commit_message message st
  = Ok ((false, [header_too_long_message (header_of message)], []),
        Validator [header_too_long_message (header_of message)] [])
  /\ contains (lit "too long") (header_too_long_message (header_of message))
     = true.
Proof.
  intros Hlen. split.
  - assert (Hne : strip message <> []).
    { intros E. rewrite (header_blank _ E) in Hlen. simpl in Hlen. lia. }
    destruct (validate_commit_message_spec message st Hne)
      as (fb & fE & fW & Pf & H).
    unfold format_post in Pf.
    replace (Nat.ltb 72 (length (header_of message))) with true in Pf
      by (symmetry; apply Nat.ltb_lt; assumption).
    destruct Pf as (-> & -> & ->). exact H.
  - exact (contains_app (lit "Header ") (lit "too long")
             (lit ": " ++ str_of_nat (length (header_of message))
              ++ lit " chars (max: 72)")).
Qed.

Lemma C3_witness :
  validate_commit_message (U := ascii_only)
    (lit "feat(cli): " ++ repeat (chr "a") 70) (Validator [] [])
  = Ok ((false, [lit "Header too long: 81 chars (max: 72)"], []),
        Validator [lit "Header too long: 81 chars (max: 72)"] []).
Proof.
  refine (proj1 (C3_header_too_long (U := ascii_only)
                   (lit "feat(cli): " ++ repeat (chr "a") 70)
                   (Validator [] []) _)).
  vm_compute. lia.
Defined.

(** C4: an empty or all-whitespace message returns at once: invalid, the
    single error [Commit message cannot be empty], no warning. *)
Theorem C4_blank_message {U : UnicodeData} (message : str) (st : validator) :
  forallb isspace message = true ->
  validate_commit_message message st
  = Ok ((false, [lit "Commit message cannot be empty"], []),
        Validator [lit "Commit message cannot be empty"] []).
Proof.
  intros H. apply validate_commit_message_blank, strip_whitespace, H.
Qed.

Lemma C4_witness :
  validate_commit_message (U := ascii_only) [32; 9; 10; 32]%N
    (Validator [lit "stale"] [])
  = Ok ((false, [lit "Commit message cannot be empty"], []),
        Validator [lit "Commit message cannot be empty"] []).
Proof.
  apply C4_blank_message. reflexivity.
Defined.

(** C5: when the trimmed text has a second line that is not blank, the body
    check appends [There must be a blank line between header and body] and
    fails, and the message is invalid; when the trimmed text has fewer than
    two lines the body check passes and leaves errors and warnings as they
    were. *)
Theorem C5_blank_line_after_header {U : UnicodeData}
    (message : str) (st : validator) :
  (forall h second rest,
     lines_of message = h :: second :: rest -> strip second <> [] ->
     validate_body_and_footer message st
     = Ok (false,
           Validator
             (errors st
              ++ [lit "There must be a blank line between header and body"])
             (warnings st))
     /\ exists E W st',
          validate_commit_message message st = Ok ((false, E, W), st'))
  /\ (length (lines_of message) < 2 ->
      validate_body_and_footer message st = Ok (true, st)).
Proof.
  split.
  - intros h second rest El Hsecond.
    assert (Hs : is_empty (strip second) = false)
      by (destruct (strip second); [congruence | reflexivity]).
    split.
    + destruct (validate_body_and_footer_spec message st)
        as (b & E & W & -> & _ & Pb).
      rewrite El, Hs in Pb. destruct Pb as (-> & -> & ->).
      rewrite app_nil_r. reflexivity.
    + assert (Hne : strip message <> []).
      { intros E. unfold lines_of in El. rewrite E in El. discriminate. }
      destruct (validate_commit_message_spec message st Hne)
        as (fb & fE & fW & Pf & H).
      destruct fb; [|eauto].
      destruct H as (tb & tE & tW & bb & bE & bW & qb & qE & qW
                     & _ & (_ & Pb) & _ & ->).
      rewrite El, Hs in Pb. destruct Pb as (-> & _).
      rewrite andb_false_r. cbn [andb]. eauto.
  - intros Hlen.
    destruct (validate_body_and_footer_spec message st)
      as (b & E & W & -> & _ & Pb).
    destruct (lines_of message) as [|h [|second rest]];
      [| |simpl in Hlen; lia];
      destruct Pb as (-> & -> & ->); destruct st; simpl;
      rewrite !app_nil_r; reflexivity.
Qed.

Lemma C5_witness :
  validate_body_and_footer (U := ascii_only)
    (lit "feat(cli): add thing" ++ [NL] ++ lit "no blank line above")
    (Validator [] [])
  = Ok (false,
        Validator [lit "There must be a blank line between header and body"]
          [])
  /\ validate_body_and_footer (U := ascii_only) (lit "fix: bug")
       (Validator [] [])
     = Ok (true, Validator [] []).
Proof.
  split.
  - refine (proj1 (proj1 (C5_blank_line_after_header (U := ascii_only)
                            (lit "feat(cli): add thing" ++ [NL]
                             ++ lit "no blank line above")
                            (Validator [] []))
                     (lit "feat(cli): add thing") (lit "no blank line above")
                     [] _ _)).
    + vm_compute. reflexivity.
    + vm_compute. discriminate.
  - refine (proj2 (C5_blank_line_after_header (U := ascii_only)
                     (lit "fix: bug") (Validator [] [])) _).
    vm_compute. lia.
Defined.

(** C6, as stated, fails: sixty [a] make a header of a length between 51
    and 72 that is not of the conventional format, and the message is
    invalid. *)
Lemma C6_counterexample :
  let message := repeat (chr "a") 60 in
  50 < length (header_of message) <= 72
  /\ exists E W,
       validate (U := ascii_only) message = Ok (false, E, W).
Proof.
  cbv zeta. split; [vm_compute; lia|].
  do 2 eexists. vm_compute. reflexivity.
Qed.

(** C6 (amended): a header of more than 50 and at most 72 characters always
    gets the warning [Header long: N chars ...], which mentions [long]; the
    message is valid when, besides, the header has the conventional shape
    and the body is set apart by a blank line. *)
Theorem C6_header_long_warning {U : UnicodeData}
    (message : str) (st : validator) :
  50 < length (header_of message) <= 72 ->
  exists is_valid E W st',
    validate_commit_message message st = Ok ((is_valid, E, W), st')
    /\ In (header_long_message (header_of message)) W
    /\ contains (lit "long") (header_long_message (header_of message)) = true
    /\ (conventional_header lower_scope_char (header_of message) ->
        body_separated (lines_of message) -> is_valid = true).
Proof.
  intros [Hlo Hhi].
  assert (Hne : strip message <> []).
  { intros E. rewrite (header_blank _ E) in Hlo. simpl in Hlo. lia. }
  destruct (validate_commit_message_spec message st Hne)
    as (fb & fE & fW & Pf & H).
  unfold format_post in Pf.
  replace (Nat.ltb 72 (length (header_of message))) with false in Pf
    by (symmetry; apply Nat.ltb_ge; assumption).
  replace (Nat.ltb 50 (length (header_of message))) with true in Pf
    by (symmetry; apply Nat.ltb_lt; assumption).
  destruct Pf as [-> _].
  assert (Hlong : contains (lit "long")
                    (header_long_message (header_of message)) = true).
  { exact (contains_app (lit "Header ") (lit "long")
             (lit ": " ++ str_of_nat (length (header_of message))
              ++ lit " chars (recommended: " ++ LE_SIGN ++ lit "50)")). }
  assert (Hres : exists is_valid E W st',
             validate_commit_message message st = Ok ((is_valid, E, W), st')
             /\ In (header_long_message (header_of message)) W).
  { destruct fb.
    - destruct H as (tb & tE & tW & bb & bE & bW & qb & qE & qW
                     & _ & _ & _ & ->).
      do 4 eexists. split; [reflexivity | left; reflexivity].
    - rewrite H. do 4 eexists. split; [reflexivity | left; reflexivity]. }
  destruct Hres as (b & E & W & st' & Hv & Hin).
  exists b, E, W, st'. repeat split; try assumption.
  intros Hconv Hbody.
  destruct (conventional_valid lower_scope_char_ok message st Hhi Hconv Hbody)
    as (W' & Hv').
  congruence.
Qed.

Lemma C6_witness :
  exists is_valid E W st',
    validate_commit_message (U := ascii_only)
      (lit "feat(cli): " ++ repeat (chr "a") 55) (Validator [] [])
    = Ok ((is_valid, E, W), st')
    /\ In (header_long_message (lit "feat(cli): " ++ repeat (chr "a") 55)) W.
Proof.
  destruct (C6_header_long_warning (U := ascii_only)
              (lit "feat(cli): " ++ repeat (chr "a") 55) (Validator [] []))
    as (b & E & W & st' & Hv & Hin & _).
  - vm_compute. lia.
  - exists b, E, W, st'. split; [exact Hv | exact Hin].
Defined.

(** ** Scopes *)

Lemma scope_char_not_paren (ch : char) :
  scope_char ch = true -> negb (N.eqb ch (chr ")")) = true.
Proof.
  intros H. destruct (N.eqb_spec ch (chr ")")) as [->|]; [discriminate|].
  reflexivity.
Qed.

(** A scope with a character that is neither a letter nor a hyphen keeps
    the format pattern from matching. *)
Lemma bad_scope_no_match {U : UnicodeData} (h ty sc rest : str) :
  h = ty ++ lit "(" ++ sc ++ lit ")" ++ rest ->
  forallb letter ty = true -> ~ In (chr ")") sc ->
  forallb scope_char sc = false ->
  re_match format_pattern h true = None.
Proof.
  intros E Hty Hparen Hbad.
  destruct (re_match format_pattern h true) eqn:Em; [exfalso | reflexivity].
  assert (Hf : re_match format_pattern h true <> None) by congruence.
  apply format_match_spec in Hf
    as (ty' & scope' & bang' & d' & rest' & E' & Htok & Ht).
  apply type_token_letters in Htok as [_ Hty'].
  destruct (tail_first rest' Ht) as (c0 & r & E0 & H0 & Hc0).
  rewrite E, E0 in E'.
  change (ty ++ lit "(" ++ sc ++ lit ")" ++ rest)
    with (ty ++ chr "(" :: (sc ++ chr ")" :: rest)) in E'.
  destruct (span_unique letter ty ty' (chr "(") c0 _ r E' Hty Hty'
              eq_refl H0) as [_ E1].
  inversion E1 as [[Hc Hr]]. symmetry in Hc. specialize (Hc0 Hc).
  destruct Ht as (Hs & _).
  destruct Hs as [-> | (sc' & -> & _ & Hsc')]; [congruence|].
  rewrite <- !app_assoc in E0.
  change (lit "(" ++ sc' ++ lit ")" ++ bang' ++ lit ": " ++ d' ++ rest')
    with (chr "(" :: (sc' ++ lit ")" ++ bang' ++ lit ": " ++ d' ++ rest'))
    in E0.
  inversion E0 as [[Hc' Hr']]. rewrite <- Hr in Hr'.
  change (sc' ++ lit ")" ++ bang' ++ lit ": " ++ d' ++ rest')
    with (sc' ++ chr ")" :: (bang' ++ lit ": " ++ d' ++ rest')) in Hr'.
  destruct (span_unique (fun ch => negb (N.eqb ch (chr ")"))) sc' sc
              (chr ")") (chr ")") _ rest Hr') as [<- _];
    try reflexivity.
  - apply forallb_weaken with (p := scope_char);
      [exact scope_char_not_paren | assumption].
  - apply forallb_forall. intros x Hx. apply negb_true_iff, N.eqb_neq.
    intros ->. contradiction.
  - congruence.
Qed.

(** C7, as stated, fails: [re.IGNORECASE] applies to the whole pattern, so
    an uppercase scope passes the format check. *)
Lemma C7_counterexample :
  let message := lit "feat(CLI): add thing" in
  header_of message = lit "feat" ++ lit "(" ++ lit "CLI" ++ lit ")"
                      ++ lit ": add thing"
  /\ forallb lower_scope_char (lit "CLI") = false
  /\ validate_format (U := ascii_only) message (Validator [] [])
     = Ok (true, Validator [] [])
  /\ exists W, validate (U := ascii_only) message = Ok (true, [], W).
Proof.
  cbv zeta. repeat split; try (vm_compute; reflexivity).
  eexists. vm_compute. reflexivity.
Qed.

(** C7 (amended): the header pattern is matched case-insensitively as a
    whole.  A header of at most 72 characters with a type in any letter
    case and a scope made of letters (of either case; U+0130, U+0131,
    U+017F and U+212A count as letters) and hyphens passes the format
    check; a header whose scope, the text between the parenthesis after
    the type and the next closing one, has any other character fails it
    with the [Invalid header format] error, and the message is invalid. *)
Theorem C7_scope_characters {U : UnicodeData}
    (message : str) (st : validator) :
  length (header_of message) <= 72 ->
  (conventional_header scope_char (header_of message) ->
   exists W, validate_format message st = Ok (true, Validator (errors st) W))
  /\ (forall ty sc rest,
        header_of message = ty ++ lit "(" ++ sc ++ lit ")" ++ rest ->
        forallb letter ty = true -> ~ In (chr ")") sc ->
        forallb scope_char sc = false ->
        (exists W,
           validate_format message st
           = Ok (false,
                 Validator
                   (errors st ++ [invalid_header_message (header_of message)])
                   W))
        /\ contains (lit "Invalid header format")
             (invalid_header_message (header_of message)) = true
        /\ exists W st',
             validate_commit_message message st
             = Ok ((false, [invalid_header_message (header_of message)], W),
                   st')).
Proof.
  intros Hlen.
  assert (H72 : Nat.ltb 72 (length (header_of message)) = false)
    by (apply Nat.ltb_ge; assumption).
  split.
  - intros Hconv.
    destruct (conventional_matches (fun ch H => H) Hconv
                (header_no_nl message)) as [Hf _].
    destruct (validate_format_spec message st) as (b & E & W & -> & Pf).
    unfold format_post in Pf. rewrite H72 in Pf. destruct Pf as [_ Pf].
    destruct (re_match format_pattern (header_of message) true);
      [|congruence].
    destruct Pf as [-> ->]. rewrite app_nil_r. eauto.
  - intros ty sc rest E Hty Hparen Hbad.
    pose proof (@bad_scope_no_match U _ _ _ _ E Hty Hparen Hbad) as Hnone.
    split; [|split].
    + destruct (validate_format_spec message st) as (b & E0 & W & -> & Pf).
      unfold format_post in Pf. rewrite H72, Hnone in Pf.
      destruct Pf as (_ & -> & ->). eauto.
    + exact (contains_app [] (lit "Invalid header format")
               (lit ": '" ++ header_of message ++ lit "'" ++ [NL]
                ++ lit "Expected: type(scope): description" ++ [NL]
                ++ lit "Valid types: " ++ join (lit ", ") (keys VALID_TYPES)
                ++ [NL] ++ lit "Valid scopes: "
                ++ join (lit ", ") (sorted VALID_SCOPES))).
    + assert (Hne : strip message <> []).
      { intros Es. rewrite (header_blank _ Es) in E.
        destruct ty; discriminate. }
      destruct (validate_commit_message_spec message st Hne)
        as (fb & fE & fW & Pf & H).
      unfold format_post in Pf. rewrite H72, Hnone in Pf.
      destruct Pf as (_ & -> & ->). eauto.
Qed.

Lemma C7_witness :
  (exists W,
     validate_format (U := ascii_only) (lit "Feat(my-Scope): add thing")
       (Validator [] [])
     = Ok (true, Validator [] W))
  /\ (exists W,
        validate_format (U := ascii_only) (lit "feat(api2): add thing")
          (Validator [] [])
        = Ok (false,
              Validator
                [invalid_header_message (lit "feat(api2): add thing")] W)).
Proof.
  split.
  - refine (proj1 (C7_scope_characters (U := ascii_only)
                     (lit "Feat(my-Scope): add thing") (Validator [] []) _) _).
    + vm_compute. lia.
    + exists (lit "Feat"), (lit "(my-Scope)"), [], (lit "add thing").
      split; [vm_compute; reflexivity|].
      split; [vm_compute; reflexivity|].
      split; [right; exists (lit "my-Scope"); repeat split; discriminate|].
      split; [left; reflexivity | discriminate].
  - refine (proj1 (proj2 (C7_scope_characters (U := ascii_only)
                            (lit "feat(api2): add thing") (Validator [] []) _)
                     (lit "feat") (lit "api2") (lit ": add thing") _ _ _ _)).
    + vm_compute. lia.
    + vm_compute. reflexivity.
    + vm_compute. reflexivity.
    + vm_compute. intuition discriminate.
    + vm_compute. reflexivity.
Defined.

(** ** Lower case and whitespace *)

Lemma isspace_letter (x : char) : (65 <= x <= 122)%N -> isspace x = false.
Proof.
  intros H. apply not_true_is_false. unfold isspace, in_range.
  rewrite !orb_true_iff, !andb_true_iff, !N.leb_le, !N.eqb_eq. lia.
Qed.

Lemma isspace_ascii_lower (ch : char) : isspace (ascii_lower ch) = isspace ch.
Proof.
  unfold ascii_lower. destruct (in_range 65 90 ch) eqn:E; [|reflexivity].
  unfold in_range in E. apply andb_true_iff in E as [E1 E2].
  apply N.leb_le in E1, E2. rewrite !isspace_letter by lia. reflexivity.
Qed.

Lemma lstrip_map_lower (s : str) :
  lstrip (map ascii_lower s) = map ascii_lower (lstrip s).
Proof.
  induction s as [|ch s IH]; simpl; [reflexivity|].
  rewrite isspace_ascii_lower. destruct (isspace ch); [assumption | reflexivity].
Qed.

Lemma strip_map_lower (s : str) :
  strip (map ascii_lower s) = map ascii_lower (strip s).
Proof.
  unfold strip, rstrip.
  rewrite lstrip_map_lower, <- map_rev, lstrip_map_lower, map_rev.
  reflexivity.
Qed.

Lemma not_vague_In (L : list str) (d : str) :
  not_vague L -> ~ In (vague_message d) L.
Proof.
  intros H Hin. unfold not_vague in H. rewrite Forall_forall in H.
  apply H in Hin. discriminate.
Qed.

(** C8: on a message whose header passes the format check, the warnings
    hold the vagueness warning exactly when the trimmed description,
    lowercased, is one of the seven words; for an ASCII description that is
    when the description equals one of them up to letter case, so a longer
    description that only contains such a word is not flagged. *)
Theorem C8_vague_description {U : UnicodeData}
    (message : str) (st : validator) :
  length (header_of message) <= 72 ->
  re_match format_pattern (header_of message) true <> None ->
  exists is_valid E W st',
    validate_commit_message message st = Ok ((is_valid, E, W), st')
    /\ (In (vague_message (description_of (header_of message))) W
        <-> mem (strip (lower (description_of (header_of message))))
              vague_words = true)
    /\ (forallb is_ascii (description_of (header_of message)) = true ->
        (In (vague_message (description_of (header_of message))) W
         <-> In (map ascii_lower (description_of (header_of message)))
               vague_words)).
Proof.
  intros Hlen Hf. set (h := header_of message) in *.
  set (d := description_of h).
  assert (Hne : strip message <> []).
  { intros E. unfold h in Hf. rewrite (header_blank _ E) in Hf.
    apply Hf. reflexivity. }
  pose proof (format_has_colon _ Hf) as Hcolon. apply Z.eqb_neq in Hcolon.
  destruct (validate_commit_message_spec message st Hne)
    as (fb & fE & fW & Pf & H).
  fold h in Pf, H. unfold format_post in Pf.
  replace (Nat.ltb 72 (length h)) with false in Pf
    by (symmetry; apply Nat.ltb_ge; assumption).
  destruct Pf as [HfW Pf].
  destruct (re_match format_pattern h true); [|congruence].
  destruct Pf as [-> ->].
  destruct H as (tb & tE & tW & bb & bE & bW & qb & qE & qW
                 & (HtW & _) & (HbW & _) & (_ & Pq) & Hv).
  rewrite Hcolon in Pq. destruct Pq as (_ & W' & HW' & HqW). fold d in HqW.
  do 4 eexists. split; [exact Hv|].
  assert (HfW' : not_vague fW).
  { rewrite HfW. destruct (Nat.ltb 50 (length h)); repeat constructor. }
  assert (Hiff : In (vague_message d) (fW ++ tW ++ bW ++ qW)
                 <-> mem (strip (lower d)) vague_words = true).
  { rewrite !in_app_iff, HqW. split.
    - intros [H | [H | [H | H]]].
      + exfalso. exact (@not_vague_In _ _ HfW' H).
      + exfalso. exact (@not_vague_In _ _ HtW H).
      + exfalso. exact (@not_vague_In _ _ HbW H).
      + destruct (mem (strip (lower d)) vague_words); [reflexivity|].
        exfalso. exact (@not_vague_In _ _ HW' H).
    - intros ->. do 3 right. left. reflexivity. }
  split; [exact Hiff|].
  intros Hascii. rewrite Hiff, lower_ascii, strip_map_lower by assumption.
  unfold d at 1, description_of. rewrite strip_strip. fold (description_of h).
  apply mem_In.
Qed.

Lemma C8_witness :
  exists is_valid E W st',
    validate_commit_message (U := ascii_only) (lit "feat(cli): Fix")
      (Validator [] [])
    = Ok ((is_valid, E, W), st')
    /\ In (vague_message (lit "Fix")) W.
Proof.
  destruct (C8_vague_description (U := ascii_only) (lit "feat(cli): Fix")
              (Validator [] []))
    as (b & E & W & st' & Hv & Hiff & _).
  - vm_compute. lia.
  - vm_compute. discriminate.
  - exists b, E, W, st'. split; [exact Hv|].
    apply (proj2 Hiff). vm_compute. reflexivity.
Defined.

(** C9: [validate_commit_message] returns its triple for every input and
    never raises; so does each of the four checks, on every message. *)
Theorem C9_never_raises {U : UnicodeData} (message : str) (st : validator) :
  (exists is_valid E W st',
     validate_commit_message message st = Ok ((is_valid, E, W), st'))
  /\ (exists b st', validate_format message st = Ok (b, st'))
  /\ (exists b st', validate_type_and_scope message st = Ok (b, st'))
  /\ (exists b st', validate_body_and_footer message st = Ok (b, st'))
  /\ (exists b st', validate_content_quality message st = Ok (b, st')).
Proof.
  split; [|repeat split].
  - destruct (strip message) eqn:Es.
    + rewrite (validate_commit_message_blank message st Es). eauto.
    + assert (Hne : strip message <> []) by congruence.
      destruct (validate_commit_message_spec message st Hne)
        as (fb & fE & fW & _ & H).
      destruct fb; [|eauto].
      destruct H as (tb & tE & tW & bb & bE & bW & qb & qE & qW
                     & _ & _ & _ & ->). eauto.
  - destruct (validate_format_spec message st) as (b & E & W & -> & _). eauto.
  - destruct (validate_type_and_scope_spec message st)
      as (b & E & W & -> & _). eauto.
  - destruct (validate_body_and_footer_spec message st)
      as (b & E & W & -> & _). eauto.
  - destruct (validate_content_quality_spec message st)
      as (b & E & W & -> & _). eauto.
Qed.

(** C10: the result for a message is the result for the message stripped of
    leading and trailing whitespace; the lines and the header the checks
    examine are those of the stripped text. *)
Theorem C10_strip_invariant {U : UnicodeData}
    (message : str) (st : validator) :
  validate_commit_message message st
  = validate_commit_message (strip message) st
  /\ lines_of message = split NL (strip message)
  /\ lines_of (strip message) = lines_of message
  /\ header_of (strip message) = header_of message.
Proof.
  assert (Hc : is_empty (strip message) || is_empty (strip (strip message))
               = is_empty message || is_empty (strip message)).
  { rewrite strip_strip, orb_diag. destruct message; reflexivity. }
  repeat split.
  - unfold validate_commit_message. rewrite Hc.
    unfold validate_format, validate_type_and_scope,
      validate_body_and_footer, validate_content_quality.
    rewrite strip_strip. reflexivity.
  - unfold lines_of. rewrite strip_strip. reflexivity.
  - unfold header_of, lines_of. rewrite strip_strip. reflexivity.
Qed.

(** ** The first match *)

Lemma plus_rests_head (p : char -> bool) (w s' : str) :
  w <> [] -> forallb p w = true ->
  match s' with [] => True | ch :: _ => p ch = false end ->
  exists l, plus_rests p (w ++ s') = s' :: l.
Proof.
  intros Hne Hw Hs'.
  assert (H0 : plus_rests p s' = []).
  { destruct s' as [|ch s0]; [reflexivity|]. simpl. rewrite Hs'. reflexivity. }
  induction w as [|x w IH]; [congruence|].
  simpl in Hw. apply andb_true_iff in Hw as [Hx Hw].
  destruct w as [|y w].
  - exists []. simpl. rewrite Hx, H0. reflexivity.
  - destruct IH as (l & El); [discriminate | assumption|].
    exists (l ++ [(y :: w) ++ s']).
    change ((x :: y :: w) ++ s') with (x :: ((y :: w) ++ s')).
    cbn [plus_rests]. rewrite Hx, El. reflexivity.
Qed.

Section First.
Context {U : UnicodeData}.

Lemma first_Cat r1 r2 s m s1 m1 x :
  (exists l, run true r1 s m = (s1, m1) :: l) ->
  (exists l, run true r2 s1 m1 = x :: l) ->
  exists l, run true (Cat r1 r2) s m = x :: l.
Proof.
  intros (l1 & E1) (l2 & E2). cbn [run]. rewrite E1. cbn [flat_map fst snd].
  rewrite E2. eexists. reflexivity.
Qed.

Lemma first_Grp n r s m s' m1 :
  (exists l, run true r s m = (s', m1) :: l) ->
  exists l, run true (Grp n r) s m = (s', (n, taken s s') :: m1) :: l.
Proof.
  intros (l & E). cbn [run]. rewrite E. eexists. reflexivity.
Qed.

Lemma first_Grp_app n r w s' m m1 :
  (exists l, run true r (w ++ s') m = (s', m1) :: l) ->
  exists l, run true (Grp n r) (w ++ s') m = (s', (n, w) :: m1) :: l.
Proof.
  intros H. apply first_Grp with (n := n) in H. rewrite taken_app in H.
  exact H.
Qed.

Lemma first_Grp_all n r w m m1 :
  (exists l, run true r w m = ([], m1) :: l) ->
  exists l, run true (Grp n r) w m = ([], (n, w) :: m1) :: l.
Proof.
  intros H. rewrite <- (app_nil_r w) in H.
  apply first_Grp_app with (n := n) in H.
  rewrite app_nil_r in H. exact H.
Qed.

Lemma first_Opt r s m x :
  (exists l, run true r s m = x :: l) ->
  exists l, run true (Opt r) s m = x :: l.
Proof.
  intros (l & E). cbn [run]. rewrite E. eexists. reflexivity.
Qed.

Lemma first_sym (w : string) s m :
  (chr w < 65)%N -> exists l, run true (sym w) (chr w :: s) m = (s, m) :: l.
Proof.
  intros Hw. unfold sym. cbn [run].
  replace (atom_matches true (Chr (chr w)) (chr w)) with true
    by (symmetry; apply uncased_match; [assumption | reflexivity]).
  eexists. reflexivity.
Qed.

Lemma first_Plus_all a w m :
  w <> [] -> forallb (atom_matches true a) w = true ->
  exists l, run true (Plus a) w m = ([], m) :: l.
Proof.
  intros Hne Hw. cbn [run].
  destruct (@plus_rests_head (atom_matches true a) w [] Hne Hw I) as (l & E).
  rewrite app_nil_r in E. rewrite E. eexists. reflexivity.
Qed.

Lemma first_Plus a w s' m :
  w <> [] -> forallb (atom_matches true a) w = true ->
  match s' with [] => True | ch :: _ => atom_matches true a ch = false end ->
  exists l, run true (Plus a) (w ++ s') m = (s', m) :: l.
Proof.
  intros Hne Hw Hs'. cbn [run].
  destruct (@plus_rests_head (atom_matches true a) w s' Hne Hw Hs') as (l & ->).
  eexists. reflexivity.
Qed.

(** A group that opens with a parenthesis does not start on another
    character. *)
Lemma skip_Opt n (w : string) r s m :
  (chr w < 65)%N ->
  match s with [] => True | ch :: _ => ch <> chr w end ->
  run true (Opt (Grp n (Cat (sym w) r))) s m = [(s, m)].
Proof.
  intros Hw Hs. cbn [run]. unfold sym. cbn [run].
  destruct s as [|ch s0]; [reflexivity|].
  destruct (atom_matches true (Chr (chr w)) ch) eqn:E; [|reflexivity].
  apply uncased_match in E; [contradiction | assumption].
Qed.

Lemma skip_bang n s m :
  match s with [] => True | ch :: _ => ch <> chr "!" end ->
  run true (Opt (Grp n (sym "!"))) s m = [(s, m)].
Proof.
  intros Hs. cbn [run]. unfold sym. cbn [run].
  destruct s as [|ch s0]; [reflexivity|].
  destruct (atom_matches true (Chr (chr "!")) ch) eqn:E; [|reflexivity].
  apply uncased_match in E; [contradiction | reflexivity].
Qed.

(** The field pattern takes a composed header apart again: the engine's
    first match binds the groups to the parts the header was made of. *)
Lemma fields_first_match (ty : str) (scope : option str) (breaking : bool)
    (d : str) :
  well_formed_fields ty scope d ->
  exists m,
    re_match fields_pattern (compose_header ty scope breaking d) true = Some m
    /\ group m 1 = Some ty
    /\ group m 3 = scope
    /\ group m 4 = (if breaking then Some (lit "!") else None)
    /\ group m 5 = Some d.
Proof.
  intros (Hne & Hty & Hsc & Hd & Hnl).
  set (tail3 := lit ": " ++ d).
  set (tail2 := (if breaking then lit "!" else []) ++ tail3).
  set (tail1 := match scope with
                | Some sc => lit "(" ++ sc ++ lit ")"
                | None => []
                end ++ tail2).
  assert (H3 : forall m, exists l,
             run true (Cat (sym ":") (Cat (sym " ") (Grp 5 (Plus Dot)))) tail3 m
             = ([], (5, d) :: m) :: l).
  { intros m. eapply first_Cat; [apply first_sym; reflexivity|].
    eapply first_Cat; [apply first_sym; reflexivity|].
    apply first_Grp_all.
    apply first_Plus_all; [assumption | apply dot_run; assumption]. }
  assert (H2 : forall m, exists l,
             run true (Opt (Grp 4 (sym "!")))  tail2 m
             = (tail3, (if breaking then [(4, lit "!")] else []) ++ m) :: l).
  { intros m. unfold tail2. destruct breaking.
    - apply first_Opt. apply first_Grp_app with (w := lit "!") (s' := tail3).
      apply (first_sym "!"). reflexivity.
    - exists []. apply skip_bang. unfold tail3. simpl. discriminate. }
  assert (H1 : forall m, exists l,
             run true
               (Opt (Grp 2 (Cat (sym "(")
                              (Cat (Grp 3 (Plus az_hyphen)) (sym ")")))))
               tail1 m
             = (tail2,
                match scope with
                | Some sc => [(2, lit "(" ++ sc ++ lit ")"); (3, sc)]
                | None => []
                end ++ m) :: l).
  { intros m. unfold tail1. destruct scope as [sc|].
    - destruct Hsc as [Hsc1 Hsc2]. apply first_Opt.
      apply first_Grp_app. rewrite <- !app_assoc.
      eapply first_Cat; [apply (first_sym "("); reflexivity|].
      eapply first_Cat; [|apply (first_sym ")"); reflexivity].
      apply first_Grp_app with (w := sc) (s' := chr ")" :: tail2).
      apply first_Plus;
        [assumption | rewrite scope_run; assumption | reflexivity].
    - exists []. apply skip_Opt; [reflexivity|].
      unfold tail2, tail3. destruct breaking; simpl; discriminate. }
  assert (H0 : exists l,
             run true (Grp 1 (Plus az)) (ty ++ tail1) []
             = (tail1, [(1, ty)]) :: l).
  { apply first_Grp_app.
    apply first_Plus; [assumption | rewrite letter_run; assumption|].
    unfold tail1, tail2, tail3.
    destruct scope, breaking; vm_compute; reflexivity. }
  assert (H : exists l,
            run true fields_pattern (compose_header ty scope breaking d) []
            = ([], (5, d) :: (if breaking then [(4, lit "!")] else [])
                   ++ match scope with
                      | Some sc => [(2, lit "(" ++ sc ++ lit ")"); (3, sc)]
                      | None => []
                      end ++ [(1, ty)]) :: l).
  { unfold fields_pattern, fields_tail.
    eapply first_Cat; [exact H0|].
    eapply first_Cat; [apply H1|].
    eapply first_Cat; [apply H2|]. apply H3. }
  destruct H as (l & E). unfold re_match. rewrite E. eexists.
  split; [reflexivity|]. cbn [snd].
  destruct scope, breaking; repeat split; reflexivity.
Qed.

End First.

(** ** Where the description starts *)

Lemma find_first (pre d : str) :
  ~ In (chr ":") pre ->
  find (pre ++ lit ": " ++ d) (lit ": ") = Z.of_nat (length pre).
Proof.
  induction pre as [|x pre IH]; intros Hpre.
  - reflexivity.
  - change ((x :: pre) ++ lit ": " ++ d) with (x :: (pre ++ lit ": " ++ d)).
    cbn [find].
    assert (Hx : startswith (x :: pre ++ lit ": " ++ d) (lit ": ") = false).
    { change (lit ": ") with (58%N :: lit " "). cbn [startswith].
      destruct (N.eqb_spec 58 x) as [<-|]; [|reflexivity].
      exfalso. apply Hpre. left. reflexivity. }
    rewrite Hx, IH by (intros H; apply Hpre; right; exact H).
    destruct (Z.eqb_spec (Z.of_nat (length pre)) (-1)); [lia|].
    cbn [length]. lia.
Qed.

Lemma letter_not_colon (ty : str) :
  forallb letter ty = true -> ~ In (chr ":") ty.
Proof.
  intros H Hin. rewrite forallb_forall in H. apply H in Hin. discriminate.
Qed.

Lemma scope_not_colon (sc : str) :
  forallb scope_char sc = true -> ~ In (chr ":") sc.
Proof.
  intros H Hin. rewrite forallb_forall in H. apply H in Hin. discriminate.
Qed.

(** The quality check, which looks for the first [": "], finds the same
    description as the field pattern, stripped. *)
Lemma description_of_compose (ty : str) (scope : option str) (breaking : bool)
    (d : str) :
  well_formed_fields ty scope d ->
  find (compose_header ty scope breaking d) (lit ": ") <> (-1)%Z
  /\ description_of (compose_header ty scope breaking d) = strip d.
Proof.
  intros (_ & Hty & Hsc & _ & _).
  set (pre := ty ++ match scope with
                    | Some sc => lit "(" ++ sc ++ lit ")"
                    | None => []
                    end ++ (if breaking then lit "!" else [])).
  assert (E : compose_header ty scope breaking d = pre ++ lit ": " ++ d).
  { unfold compose_header, pre. rewrite <- !app_assoc. reflexivity. }
  assert (Hpre : ~ In (chr ":") pre).
  { unfold pre. rewrite !in_app_iff. intros [H | [H | H]].
    - exact (letter_not_colon _ Hty H).
    - destruct scope as [sc|]; [|exact H]. destruct Hsc as [_ Hsc].
      rewrite !in_app_iff in H. destruct H as [H | [H | H]].
      + destruct H as [H|[]]; discriminate.
      + exact (scope_not_colon _ Hsc H).
      + destruct H as [H|[]]; discriminate.
    - destruct breaking; [destruct H as [H|[]]; discriminate | exact H]. }
  pose proof (find_first pre d Hpre) as Hfind. rewrite <- E in Hfind.
  split; [rewrite Hfind; lia|].
  unfold description_of, slice_from. rewrite Hfind, E.
  replace (Z.to_nat (Z.of_nat (length pre) + 2)) with (length pre + 2) by lia.
  rewrite skipn_app, skipn_all2 by lia.
  replace (length pre + 2 - length pre) with 2 by lia. reflexivity.
Qed.

(** ** What the checks report, exactly *)

Section Exact.
Context {U : UnicodeData}.

Lemma for_each_exact A (l : list A) (cond : A -> bool) (msg : A -> str) :
  emits (for_each l (fun x => when (cond x) (append_warning (msg x))))
    (fun _ E W =>
       E = [] /\ W = flat_map (fun x => if cond x then [msg x] else []) l).
Proof.
  induction l as [|x l IH]; cbn [for_each flat_map].
  - apply emits_ret. auto.
  - apply emits_when. eapply emits_weaken; [exact IH|]. cbv beta.
    intros _ E W [-> ->]. split; [reflexivity|].
    destruct (cond x); reflexivity.
Qed.

Lemma validate_body_and_footer_exact (message : str) :
  emits (validate_body_and_footer message)
    (fun b E W =>
       b = blank_line_ok (lines_of message)
       /\ E = (if blank_line_ok (lines_of message) then []
               else [blank_line_message])
       /\ W = (if blank_line_ok (lines_of message)
               then body_warnings (lines_of message) else [])).
Proof.
  unfold validate_body_and_footer, lines_of, blank_line_ok, body_warnings.
  destruct (split_cons NL (strip message)) as (h & rest & E). rewrite E.
  destruct rest as [|second rest].
  - apply emits_ret. auto.
  - change (Nat.ltb (length (h :: second :: rest)) 2) with false.
    change (Nat.ltb 1 (length (h :: second :: rest))) with true. cbv iota.
    eapply emits_bind
      with (P := fun a E W => a = negb (is_empty (strip second))
                              /\ E = [] /\ W = []).
    + apply emits_getitem with (x := second); [reflexivity|].
      apply emits_ret. auto.
    + intros a E0 W0 (-> & -> & ->). cbn [app].
      destruct (is_empty (strip second)); cbn [negb].
      * eapply emits_bind; [apply for_each_exact|].
        cbv beta. intros _ E0 W0 [-> ->]. apply emits_ret.
        rewrite !app_nil_r. auto.
      * apply emits_error, emits_ret. auto.
Qed.

Lemma validate_content_quality_exact (message : str) :
  find (header_of message) (lit ": ") <> (-1)%Z ->
  emits (validate_content_quality message)
    (fun b E W =>
       b = true /\ E = []
       /\ W = quality_warnings (description_of (header_of message))).
Proof.
  intros Hfind. unfold validate_content_quality.
  apply emits_getitem with (x := header_of message); [apply header_nth|].
  set (h := header_of message) in *. cbv zeta.
  apply Z.eqb_neq in Hfind. rewrite Hfind.
  fold (description_of h). set (d := description_of h).
  do 2 apply emits_when.
  eapply emits_bind
    with (P := fun w E W => w = first_word d /\ E = [] /\ W = []).
  - unfold first_word. destruct (split_ws d) as [|w ws]; cbn [is_empty negb].
    + apply emits_ret. auto.
    + apply emits_getitem with (x := w); [reflexivity|]. apply emits_ret. auto.
  - intros w E W (-> & -> & ->). apply emits_when, emits_ret.
    split; [reflexivity|]. split; [reflexivity|]. unfold quality_warnings.
    change (existsb (fun word => str_eqb (strip (lower d)) word) vague_words)
      with (mem (strip (lower d)) vague_words).
    destruct (mem (strip (lower d)) vague_words),
      (Nat.ltb (length d) 10),
      (negb (mem (first_word d) imperative_indicators)); reflexivity.
Qed.

Lemma validate_type_and_scope_exact (message ty : str) (scope : option str)
    (breaking : bool) (d : str) :
  header_of message = compose_header ty scope breaking d ->
  well_formed_fields ty scope d ->
  emits (validate_type_and_scope message)
    (fun b E W =>
       if mem (lower ty) (keys VALID_TYPES)
       then b = true /\ E = [] /\ W = type_scope_warnings scope breaking d
       else b = false /\ E = [invalid_type_message (lower ty)] /\ W = []).
Proof.
  intros Eh Hwf. unfold validate_type_and_scope.
  apply emits_getitem with (x := header_of message); [apply header_nth|].
  rewrite Eh.
  destruct (fields_first_match breaking Hwf) as (m & -> & H1 & H3 & H4 & H5).
  rewrite H1, H3, H4, H5. apply emits_let.
  destruct Hwf as (_ & _ & Hsc & Hd & _).
  destruct (mem (lower ty) (keys VALID_TYPES)); cbn [negb].
  2:{ apply emits_error, emits_ret. auto. }
  assert (Hb : match (if breaking then Some (lit "!") else None) with
               | Some g => str_eqb g (lit "!")
               | None => false
               end = breaking) by (destruct breaking; reflexivity).
  rewrite Hb.
  destruct d as [|d0 d]; [congruence|]. cbn [truthy negb].
  unfold type_scope_warnings.
  destruct scope as [sc|].
  - assert (Ht : truthy (Some sc) = true)
      by (destruct Hsc as [Hsc _]; destruct sc; [congruence | reflexivity]).
    rewrite Ht. cbn [andb]. apply emits_when, emits_let.
    apply emits_getitem with (x := d0); [reflexivity|].
    do 3 apply emits_when. apply emits_ret.
    destruct (negb (mem sc VALID_SCOPES)), (isupper d0),
      (endswith (d0 :: d) (lit ".")), breaking; auto.
  - apply emits_skip, emits_let.
    apply emits_getitem with (x := d0); [reflexivity|].
    do 3 apply emits_when. apply emits_ret.
    destruct (isupper d0), (endswith (d0 :: d) (lit ".")), breaking; auto.
Qed.

End Exact.

(** ** Accepted headers are composed headers *)

Lemma type_token_ascii {U : UnicodeData} (ty : str) :
  type_token ty -> forallb is_ascii ty = true ->
  mem (lower ty) (keys VALID_TYPES) = true.
Proof.
  intros (w & Hw & H) Hascii. rewrite lower_ascii by assumption.
  apply mem_In. replace (map ascii_lower ty) with w; [assumption|].
  apply keys_lowercase in Hw as [_ Hlow].
  induction H as [|pc ch w ty Hc H IH]; [reflexivity|].
  simpl in *. apply andb_true_iff in Hlow as [Hpc Hlow].
  apply andb_true_iff in Hascii as [Hch Hascii].
  rewrite <- IH by assumption. f_equal.
  unfold in_range in Hpc. apply andb_true_iff in Hpc as [H1 H2].
  apply N.leb_le in H1, H2. apply N.ltb_lt in Hch.
  apply ieq_lower_spec in Hc; [|lia].
  unfold ascii_lower, in_range.
  destruct (N.leb_spec 65 ch), (N.leb_spec ch 90); cbn [andb]; lia.
Qed.

Lemma format_match_compose {U : UnicodeData} (h : str) :
  ~ In NL h ->
  re_match format_pattern h true <> None
  <-> exists ty scope breaking d,
        h = compose_header ty scope breaking d
        /\ type_token ty /\ well_formed_fields ty scope d.
Proof.
  intros Hnl. rewrite format_match_spec. split.
  - intros (ty & scope & bang & d & rest & E & Htok & Hs & Hb & Hd & _).
    destruct (type_token_letters Htok) as [Hne Hty].
    assert (Hnl' : ~ In NL (d ++ rest)).
    { intros H. apply Hnl. rewrite E, !in_app_iff. rewrite in_app_iff in H.
      tauto. }
    assert (Hd' : d ++ rest <> []) by (destruct d; [congruence | discriminate]).
    destruct Hs as [-> | (sc & -> & Hsc1 & Hsc2)];
      destruct Hb as [-> | ->].
    + exists ty, None, false, (d ++ rest). repeat split; assumption.
    + exists ty, None, true, (d ++ rest). repeat split; assumption.
    + exists ty, (Some sc), false, (d ++ rest).
      unfold compose_header. rewrite <- !app_assoc in *.
      repeat split; assumption.
    + exists ty, (Some sc), true, (d ++ rest).
      unfold compose_header. rewrite <- !app_assoc in *.
      repeat split; assumption.
  - intros (ty & scope & breaking & d & -> & Htok & _ & _ & Hsc & Hd & Hnl').
    exists ty, (match scope with
                | Some sc => lit "(" ++ sc ++ lit ")"
                | None => []
                end), (if breaking then lit "!" else []), d, [].
    rewrite app_nil_r. split; [reflexivity|]. split; [assumption|].
    repeat split; try assumption.
    + destruct scope as [sc|]; [right | left; reflexivity].
      exists sc. destruct Hsc. auto.
    + destruct breaking; auto.
Qed.

(** ** The whole pass, step by step *)

Lemma validate_commit_message_steps {U : UnicodeData}
    (message : str) (st : validator)
    (fE fW : list str) (tb : bool) (tE tW : list str)
    (bb : bool) (bE bW : list str) (qb : bool) (qE qW : list str) :
  strip message <> [] ->
  validate_format message (Validator [] []) = Ok (true, Validator fE fW) ->
  validate_type_and_scope message (Validator fE fW)
  = Ok (tb, Validator (fE ++ tE) (fW ++ tW)) ->
  validate_body_and_footer message (Validator (fE ++ tE) (fW ++ tW))
  = Ok (bb, Validator ((fE ++ tE) ++ bE) ((fW ++ tW) ++ bW)) ->
  validate_content_quality message
    (Validator ((fE ++ tE) ++ bE) ((fW ++ tW) ++ bW))
  = Ok (qb, Validator (((fE ++ tE) ++ bE) ++ qE) (((fW ++ tW) ++ bW) ++ qW)) ->
  validate_commit_message message st
  = Ok ((tb && bb && qb, fE ++ tE ++ bE ++ qE, fW ++ tW ++ bW ++ qW),
        Validator (fE ++ tE ++ bE ++ qE) (fW ++ tW ++ bW ++ qW)).
Proof.
  intros Hne Ef Et Eb Eq. unfold validate_commit_message.
  assert (Hm : is_empty message || is_empty (strip message) = false).
  { destruct message; [exfalso; apply Hne; reflexivity|].
    destruct (strip (c :: message)); [congruence | reflexivity]. }
  rewrite Hm. unfold bind. rewrite Ef, Et, Eb, Eq.
  cbn [errors warnings andb]. rewrite <- !app_assoc. reflexivity.
Qed.

(** The result for a message whose header the format check accepts. *)
Lemma accepted_message_result {U : UnicodeData}
    (message : str) (st : validator)
    (ty : str) (scope : option str) (breaking : bool) (d : str) :
  length (header_of message) <= 72 ->
  header_of message = compose_header ty scope breaking d ->
  type_token ty -> well_formed_fields ty scope d ->
  let type_ok := mem (lower ty) (keys VALID_TYPES) in
  let separated := blank_line_ok (lines_of message) in
  let E := (if type_ok then [] else [invalid_type_message (lower ty)])
           ++ (if separated then [] else [blank_line_message]) in
  let W := header_warnings (header_of message)
           ++ (if type_ok then type_scope_warnings scope breaking d else [])
           ++ (if separated then body_warnings (lines_of message) else [])
           ++ quality_warnings (strip d) in
  validate_commit_message message st
  = Ok ((type_ok && separated, E, W), Validator E W).
Proof.
  intros Hlen Eh Htok Hwf. cbv zeta.
  assert (Hf : re_match format_pattern (header_of message) true <> None).
  { apply format_match_compose; [apply header_no_nl|]. eauto 8. }
  assert (Hne : strip message <> []).
  { intros E. rewrite (header_blank _ E) in Hf. apply Hf. reflexivity. }
  destruct (description_of_compose breaking Hwf) as [Hfind Hdesc].
  rewrite <- Eh in Hfind, Hdesc.
  destruct (validate_format_spec message (Validator [] []))
    as (fb & fE & fW & Ef & Pf). cbn [errors warnings app] in Ef.
  unfold format_post in Pf.
  replace (Nat.ltb 72 (length (header_of message))) with false in Pf
    by (symmetry; apply Nat.ltb_ge; assumption).
  destruct Pf as [HfW Pf].
  destruct (re_match format_pattern (header_of message) true); [|congruence].
  destruct Pf as [-> ->].
  destruct (validate_type_and_scope_exact message breaking Eh Hwf
              (Validator [] fW)) as (tb & tE & tW & Et & Pt).
  cbn [errors warnings] in Et.
  destruct (validate_body_and_footer_exact message
              (Validator ([] ++ tE) (fW ++ tW)))
    as (bb & bE & bW & Eb & (Hbb & HbE & HbW)). cbn [errors warnings] in Eb.
  destruct (@validate_content_quality_exact U message Hfind
              (Validator (([] ++ tE) ++ bE) ((fW ++ tW) ++ bW)))
    as (qb & qE & qW & Eq & (Hqb & HqE & HqW)). cbn [errors warnings] in Eq.
  rewrite (@validate_commit_message_steps U message st [] fW tb tE tW
             bb bE bW qb qE qW Hne Ef Et Eb Eq).
  rewrite Hdesc in HqW. subst qb qE qW bb bE bW fW.
  fold (header_warnings (header_of message)).
  destruct (mem (lower ty) (keys VALID_TYPES));
    destruct Pt as (-> & -> & ->);
    destruct (blank_line_ok (lines_of message));
    cbn [andb app]; rewrite ?app_nil_r; reflexivity.
Qed.

(** ** Telling the messages apart *)

Lemma initial_apart (w : str) (L : list str) :
  Forall (fun x => initial x <> initial w) L -> ~ In w L.
Proof.
  intros H Hin. rewrite Forall_forall in H. exact (H w Hin eq_refl).
Qed.

Lemma header_warnings_initial (h : str) :
  Forall (fun w => initial w = chr "H") (header_warnings h).
Proof.
  unfold header_warnings. destruct (Nat.ltb 50 (length h)); repeat constructor.
Qed.

Lemma body_warnings_initial (lines : list str) :
  Forall (fun w => initial w = chr "L") (body_warnings lines).
Proof.
  unfold body_warnings. apply Forall_forall. intros w Hw.
  apply in_flat_map in Hw as (x & _ & Hw).
  destruct (Nat.ltb 72 (length (snd x))); [|destruct Hw].
  destruct Hw as [<-|[]]. reflexivity.
Qed.

Lemma quality_warnings_initial {U : UnicodeData} (d : str) :
  Forall (fun w => initial w = chr "D" \/ initial w = chr "C")
    (quality_warnings d).
Proof.
  unfold quality_warnings.
  destruct (mem (strip (lower d)) vague_words), (Nat.ltb (length d) 10),
    (negb (mem (first_word d) imperative_indicators));
    repeat constructor; (left; reflexivity) || (right; reflexivity).
Qed.

Lemma Forall_initial_weaken (P : char -> Prop) (c0 : char) (L : list str) :
  Forall (fun w => P (initial w)) L -> ~ P c0 ->
  Forall (fun x => initial x <> c0) L.
Proof.
  intros H Hc. eapply Forall_impl; [|exact H]. cbv beta.
  intros w Hw E. rewrite E in Hw. contradiction.
Qed.

Section Results.
Context {U : UnicodeData}.

(** The result for a message whose header the format check rejects. *)
Lemma rejected_message_result (message : str) (st : validator) :
  strip message <> [] ->
  (72 < length (header_of message) ->
   validate_commit_message message st
   = Ok ((false, [header_too_long_message (header_of message)], []),
         Validator [header_too_long_message (header_of message)] []))
  /\ (length (header_of message) <= 72 ->
      re_match format_pattern (header_of message) true = None ->
      validate_commit_message message st
      = Ok ((false, [invalid_header_message (header_of message)],
             header_warnings (header_of message)),
            Validator [invalid_header_message (header_of message)]
              (header_warnings (header_of message)))).
Proof.
  intros Hne.
  destruct (validate_commit_message_spec message st Hne)
    as (fb & fE & fW & Pf & H).
  unfold format_post in Pf. split.
  - intros Hlen.
    replace (Nat.ltb 72 (length (header_of message))) with true in Pf
      by (symmetry; apply Nat.ltb_lt; assumption).
    destruct Pf as (-> & -> & ->). exact H.
  - intros Hlen Hnone.
    replace (Nat.ltb 72 (length (header_of message))) with false in Pf
      by (symmetry; apply Nat.ltb_ge; assumption).
    rewrite Hnone in Pf. destruct Pf as (-> & -> & ->). exact H.
Qed.

(** The result for a message with a well-formed header of a valid type. *)
Lemma conventional_message_result (message : str) (st : validator)
    (ty : str) (scope : option str) (breaking : bool) (d : str) :
  length (header_of message) <= 72 ->
  header_of message = compose_header ty scope breaking d ->
  mem (map ascii_lower ty) (keys VALID_TYPES) = true ->
  well_formed_fields ty scope d ->
  let separated := blank_line_ok (lines_of message) in
  let E := if separated then [] else [blank_line_message] in
  let W := header_warnings (header_of message)
           ++ type_scope_warnings scope breaking d
           ++ (if separated then body_warnings (lines_of message) else [])
           ++ quality_warnings (strip d) in
  validate_commit_message message st = Ok ((separated, E, W), Validator E W).
Proof.
  intros Hlen Eh Hty Hwf. cbv zeta.
  destruct (type_token_of_mem _ Hty) as [Htok Hascii].
  rewrite (accepted_message_result message st breaking Hlen Eh Htok Hwf).
  rewrite (type_token_ascii Htok Hascii). reflexivity.
Qed.

End Results.

(** ** Which warnings a list holds *)

Lemma not_in_header_warnings (w h : str) :
  initial w <> chr "H" -> ~ In w (header_warnings h).
Proof.
  intros H. apply initial_apart.
  apply Forall_initial_weaken with (P := fun c => c = chr "H");
    [apply header_warnings_initial | congruence].
Qed.

Lemma not_in_body_warnings (w : str) (lines : list str) :
  initial w <> chr "L" -> ~ In w (body_warnings lines).
Proof.
  intros H. apply initial_apart.
  apply Forall_initial_weaken with (P := fun c => c = chr "L");
    [apply body_warnings_initial | congruence].
Qed.

Lemma not_in_quality_warnings {U : UnicodeData} (w d : str) :
  initial w <> chr "D" -> initial w <> chr "C" ->
  ~ In w (quality_warnings d).
Proof.
  intros H1 H2. apply initial_apart.
  apply Forall_initial_weaken
    with (P := fun c => c = chr "D" \/ c = chr "C");
    [apply quality_warnings_initial | tauto].
Qed.

Lemma in_type_scope_warnings {U : UnicodeData} (w : str)
    (scope : option str) (breaking : bool) (d : str) :
  In w (type_scope_warnings scope breaking d)
  <-> (exists sc, scope = Some sc /\ mem sc VALID_SCOPES = false
                  /\ w = unknown_scope_message sc)
      \/ (match d with ch :: _ => isupper ch | [] => false end = true
          /\ w = lit "Description should start with lowercase letter")
      \/ (endswith d (lit ".") = true
          /\ w = lit "Description should not end with a period")
      \/ (breaking = true
          /\ w = lit "Breaking change detected - ensure CHANGELOG.md is updated").
Proof.
  unfold type_scope_warnings. rewrite !in_app_iff.
  assert (H1 : forall (c : bool) (x : str),
             In w (if c then [x] else []) <-> c = true /\ w = x).
  { intros [] x; simpl; intuition congruence. }
  rewrite !H1.
  assert (H0 : In w match scope with
                    | Some sc => if negb (mem sc VALID_SCOPES)
                                 then [unknown_scope_message sc] else []
                    | None => []
                    end
               <-> exists sc, scope = Some sc /\ mem sc VALID_SCOPES = false
                              /\ w = unknown_scope_message sc).
  { destruct scope as [sc|].
    - rewrite H1, negb_true_iff. split.
      + intros [H ->]. eauto.
      + intros (sc' & E & H & ->). inversion E; subst. auto.
    - split; [intros [] | intros (sc & E & _); discriminate]. }
  rewrite H0. tauto.
Qed.

Lemma enumerate_nth A (l : list A) : forall (k start : nat) (x : A),
  nth_error l k = Some x -> In (start + k, x) (enumerate l start).
Proof.
  unfold enumerate. induction l as [|y l IH]; intros [|k] start x H;
    simpl in *; try discriminate.
  - inversion H; subst. left. rewrite Nat.add_0_r. reflexivity.
  - right. replace (start + S k) with (S start + k) by lia. auto.
Qed.

Lemma long_lines_nil (l : list str) : forall start : nat,
  flat_map (fun x => if Nat.ltb 72 (length (snd x))
                     then [line_too_long_message (fst x) (snd x)] else [])
    (enumerate l start) = []
  <-> Forall (fun line => length line <= 72) l.
Proof.
  unfold enumerate. induction l as [|x l IH]; intros start;
    cbn [length seq combine flat_map fst snd].
  - split; [constructor | reflexivity].
  - destruct (Nat.ltb_spec 72 (length x)) as [Hx|Hx]; cbn [app].
    + split; [discriminate | intros H; inversion H; lia].
    + rewrite IH. split; [constructor; assumption | intros H; inversion H; auto].
Qed.

Lemma body_warnings_nil (lines : list str) :
  body_warnings lines = []
  <-> Forall (fun line => length line <= 72) (skipn 2 lines).
Proof. apply long_lines_nil. Qed.

(** * Further properties of the validator *)

(** X1: the field pattern of the type check takes a header apart into the
    parts it was put together from: type, scope (or none), breaking marker
    and the whole description up to the end of the line. *)
Theorem X1_fields_round_trip {U : UnicodeData}
    (ty : str) (scope : option str) (breaking : bool) (d : str) :
  well_formed_fields ty scope d ->
  exists m,
    re_match fields_pattern (compose_header ty scope breaking d) true = Some m
    /\ group m 1 = Some ty
    /\ group m 3 = scope
    /\ group m 4 = (if breaking then Some (lit "!") else None)
    /\ group m 5 = Some d.
Proof. apply fields_first_match. Qed.

Lemma X1_witness :
  exists m,
    re_match (U := ascii_only) fields_pattern
      (lit "Feat(my-scope)!: Add a thing: now") true = Some m
    /\ group m 1 = Some (lit "Feat")
    /\ group m 3 = Some (lit "my-scope")
    /\ group m 4 = Some (lit "!")
    /\ group m 5 = Some (lit "Add a thing: now").
Proof.
  apply (X1_fields_round_trip (U := ascii_only) (ty := lit "Feat")
           (scope := Some (lit "my-scope")) true (d := lit "Add a thing: now")).
  repeat split; try discriminate; try reflexivity.
  vm_compute. intuition discriminate.
Defined.

(** X2: the quality check, which cuts the header at the first [": "],
    works on the description the type check extracts with the pattern,
    stripped of surrounding whitespace. *)
Theorem X2_description_agrees
    (ty : str) (scope : option str) (breaking : bool) (d : str) :
  well_formed_fields ty scope d ->
  find (compose_header ty scope breaking d) (lit ": ") <> (-1)%Z
  /\ description_of (compose_header ty scope breaking d) = strip d.
Proof. apply description_of_compose. Qed.

Lemma X2_witness :
  description_of (lit "revert: feat(cli): add  ") = lit "feat(cli): add".
Proof.
  refine (proj2 (X2_description_agrees (ty := lit "revert") (scope := None)
                   false (d := lit "feat(cli): add  ") _)).
  repeat split; try discriminate; try reflexivity.
  vm_compute. intuition discriminate.
Defined.

(** X3: the complete result for a message whose header has at most 72
    characters and is accepted by the format pattern.  The message is valid
    exactly when the lowercased type is a key of [VALID_TYPES] and the
    second line, if any, is blank; the errors and the warnings are the ones
    listed, in this order. *)
Theorem X3_accepted_message_result {U : UnicodeData}
    (message : str) (st : validator)
    (ty : str) (scope : option str) (breaking : bool) (d : str) :
  length (header_of message) <= 72 ->
  header_of message = compose_header ty scope breaking d ->
  type_token ty -> well_formed_fields ty scope d ->
  let type_ok := mem (lower ty) (keys VALID_TYPES) in
  let separated := blank_line_ok (lines_of message) in
  let E := (if type_ok then [] else [invalid_type_message (lower ty)])
           ++ (if separated then [] else [blank_line_message]) in
  let W := header_warnings (header_of message)
           ++ (if type_ok then type_scope_warnings scope breaking d else [])
           ++ (if separated then body_warnings (lines_of message) else [])
           ++ quality_warnings (strip d) in
  validate_commit_message message st
  = Ok ((type_ok && separated, E, W), Validator E W).
Proof. apply accepted_message_result. Qed.

Lemma X3_witness :
  validate_commit_message (U := ascii_only)
    (lit "fix(parser)!: Handle empty input." ++ [NL] ++ lit "no blank line")
    (Validator [] [])
  = Ok ((false,
         [lit "There must be a blank line between header and body"],
         [unknown_scope_message (lit "parser");
          lit "Description should start with lowercase letter";
          lit "Description should not end with a period";
          lit "Breaking change detected - ensure CHANGELOG.md is updated";
          imperative_message (lit "Handle empty input.")]),
        Validator
          [lit "There must be a blank line between header and body"]
          [unknown_scope_message (lit "parser");
           lit "Description should start with lowercase letter";
           lit "Description should not end with a period";
           lit "Breaking change detected - ensure CHANGELOG.md is updated";
           imperative_message (lit "Handle empty input.")]).
Proof.
  refine (X3_accepted_message_result (U := ascii_only)
            (lit "fix(parser)!: Handle empty input." ++ [NL]
             ++ lit "no blank line")
            (Validator [] []) (ty := lit "fix") (scope := Some (lit "parser"))
            true (d := lit "Handle empty input.") _ _ _ _).
  - vm_compute. lia.
  - vm_compute. reflexivity.
  - exists (lit "fix"). split; [vm_compute; tauto|].
    repeat constructor.
  - repeat split; try discriminate; try reflexivity.
    vm_compute. intuition discriminate.
Defined.

(** X4: for a message whose header is pure ASCII, validity has a closed
    form: the message is valid if and only if its header has at most 72
    characters and the shape [type(scope)?!?: description] (type of the
    fixed set and scope letters in any case) and the second line, if there
    is one, is blank. *)
Theorem X4_ascii_validity_criterion {U : UnicodeData}
    (message : str) (st : validator) :
  forallb is_ascii (header_of message) = true ->
  exists is_valid E W st',
    validate_commit_message message st = Ok ((is_valid, E, W), st')
    /\ (is_valid = true
        <-> length (header_of message) <= 72
            /\ conventional_header scope_char (header_of message)
            /\ body_separated (lines_of message)).
Proof.
  intros Hascii.
  destruct (Nat.le_gt_cases (length (header_of message)) 72) as [Hlen|Hlen].
  2:{ assert (Hne : strip message <> []).
      { intros E. rewrite (header_blank _ E) in Hlen. simpl in Hlen. lia. }
      rewrite (proj1 (rejected_message_result message st Hne) Hlen).
      do 4 eexists. split; [reflexivity|]. split; [discriminate | lia]. }
  destruct (re_match format_pattern (header_of message) true) eqn:Ef.
  - assert (Hf : re_match format_pattern (header_of message) true <> None)
      by congruence.
    apply (@format_match_compose U _ (header_no_nl message)) in Hf
      as (ty & scope & breaking & d & Eh & Htok & Hwf).
    assert (Hty : forallb is_ascii ty = true).
    { rewrite Eh in Hascii. unfold compose_header in Hascii.
      rewrite forallb_app in Hascii. apply andb_true_iff in Hascii. tauto. }
    rewrite (accepted_message_result message st breaking Hlen Eh Htok Hwf).
    rewrite (type_token_ascii Htok Hty). cbn [andb].
    do 4 eexists. split; [reflexivity|].
    assert (Hconv : conventional_header scope_char (header_of message)).
    { destruct Hwf as (_ & _ & Hsc & Hd & _).
      exists ty, (match scope with
                  | Some sc => lit "(" ++ sc ++ lit ")"
                  | None => []
                  end), (if breaking then lit "!" else []), d.
      split; [exact Eh|]. split.
      - rewrite <- (lower_ascii _ Hty). apply type_token_ascii; assumption.
      - split; [|split; [destruct breaking; auto | assumption]].
        destruct scope as [sc|]; [right | left; reflexivity].
        exists sc. destruct Hsc. auto. }
    unfold blank_line_ok, body_separated.
    destruct (lines_of message) as [|h [|second rest]];
      try (split; [auto | reflexivity]).
    destruct (strip second); cbn [is_empty];
      split; auto; try discriminate.
    intros (_ & _ & H). discriminate.
  - assert (Hnone : forall b E W st',
               validate_commit_message message st = Ok ((b, E, W), st') ->
               b = false).
    { intros b E W st' Hv. destruct (strip message) eqn:Es.
      - rewrite (validate_commit_message_blank message st Es) in Hv.
        congruence.
      - assert (Hne : strip message <> []) by congruence.
        rewrite (proj2 (rejected_message_result message st Hne) Hlen Ef) in Hv.
        congruence. }
    assert (Hex : exists b E W st',
               validate_commit_message message st = Ok ((b, E, W), st')).
    { destruct (strip message) eqn:Es.
      - rewrite (validate_commit_message_blank message st Es). eauto.
      - assert (Hne : strip message <> []) by congruence.
        rewrite (proj2 (rejected_message_result message st Hne) Hlen Ef).
        eauto. }
    destruct Hex as (b & E & W & st' & Hv). exists b, E, W, st'.
    split; [exact Hv|]. rewrite (Hnone _ _ _ _ Hv).
    split; [discriminate|]. intros (_ & Hconv & _). exfalso.
    destruct (conventional_matches (fun ch H => H) Hconv
                (header_no_nl message)) as [Hf _].
    congruence.
Qed.

Lemma X4_witness :
  exists E W st',
    validate_commit_message (U := ascii_only)
      (lit "Docs(ReadMe): update install notes") (Validator [] [])
    = Ok ((true, E, W), st').
Proof.
  destruct (X4_ascii_validity_criterion (U := ascii_only)
              (lit "Docs(ReadMe): update install notes") (Validator [] []))
    as (b & E & W & st' & Hv & Hiff).
  - vm_compute. reflexivity.
  - exists E, W, st'.
    assert (Hb : b = true).
    { apply (proj2 Hiff).
      split; [vm_compute; lia|]. split; [|vm_compute; exact I].
      exists (lit "Docs"), (lit "(ReadMe)"), [], (lit "update install notes").
      split; [vm_compute; reflexivity|].
      split; [vm_compute; reflexivity|].
      split; [right; exists (lit "ReadMe"); repeat split; discriminate|].
      split; [left; reflexivity | discriminate]. }
    rewrite Hb in Hv. exact Hv.
Defined.

(** X5: the error [Description cannot be empty] is never reported, for any
    message; and for a message with a pure ASCII header the error list is
    empty or holds exactly one of four errors: the type check never fails
    there. *)
Theorem X5_reported_errors {U : UnicodeData}
    (message : str) (st : validator) :
  exists is_valid E W st',
    validate_commit_message message st = Ok ((is_valid, E, W), st')
    /\ ~ In (lit "Description cannot be empty") E
    /\ (forallb is_ascii (header_of message) = true ->
        E = [] \/ E = [lit "Commit message cannot be empty"]
        \/ E = [header_too_long_message (header_of message)]
        \/ E = [invalid_header_message (header_of message)]
        \/ E = [lit "There must be a blank line between header and body"]).
Proof.
  destruct (strip message) eqn:Es.
  { rewrite (validate_commit_message_blank message st Es).
    do 4 eexists. split; [reflexivity|]. split; [|auto].
    intros [H|[]]. discriminate. }
  assert (Hne : strip message <> []) by congruence.
  destruct (Nat.le_gt_cases (length (header_of message)) 72) as [Hlen|Hlen].
  2:{ rewrite (proj1 (rejected_message_result message st Hne) Hlen).
      do 4 eexists. split; [reflexivity|]. split; [|auto].
      intros [H|[]]. discriminate. }
  destruct (re_match format_pattern (header_of message) true) eqn:Ef.
  2:{ rewrite (proj2 (rejected_message_result message st Hne) Hlen Ef).
      do 4 eexists. split; [reflexivity|]. split; [|auto 6].
      intros [H|[]]. discriminate. }
  assert (Hf : re_match format_pattern (header_of message) true <> None)
    by congruence.
  apply (@format_match_compose U _ (header_no_nl message)) in Hf
    as (ty & scope & breaking & d & Eh & Htok & Hwf).
  rewrite (accepted_message_result message st breaking Hlen Eh Htok Hwf).
  do 4 eexists. split; [reflexivity|]. split.
  - destruct (mem (lower ty) (keys VALID_TYPES)),
      (blank_line_ok (lines_of message)); simpl;
      intuition discriminate.
  - intros Hascii.
    assert (Hty : forallb is_ascii ty = true).
    { rewrite Eh in Hascii. unfold compose_header in Hascii.
      rewrite forallb_app in Hascii. apply andb_true_iff in Hascii. tauto. }
    rewrite (type_token_ascii Htok Hty).
    destruct (blank_line_ok (lines_of message)); simpl; auto 6.
Qed.

(** X6: on a message with a well-formed header of at most 72 characters
    and a valid type, the warning about an unknown scope is given exactly
    when the scope is not in [VALID_SCOPES]; it mentions [Unknown scope],
    and the scope has no part in validity, which is decided by the blank
    line alone. *)
Theorem X6_unknown_scope_warning {U : UnicodeData}
    (message : str) (st : validator) (ty sc : str) (breaking : bool) (d : str) :
  length (header_of message) <= 72 ->
  header_of message = compose_header ty (Some sc) breaking d ->
  mem (map ascii_lower ty) (keys VALID_TYPES) = true ->
  well_formed_fields ty (Some sc) d ->
  exists E W st',
    validate_commit_message message st
    = Ok ((blank_line_ok (lines_of message), E, W), st')
    /\ (In (unknown_scope_message sc) W <-> mem sc VALID_SCOPES = false)
    /\ contains (lit "Unknown scope") (unknown_scope_message sc) = true.
Proof.
  intros Hlen Eh Hty Hwf.
  rewrite (conventional_message_result message st breaking Hlen Eh Hty Hwf).
  do 3 eexists. split; [reflexivity|]. split.
  - rewrite !in_app_iff, in_type_scope_warnings. split.
    + intros [H | [H | [H | H]]].
      * exfalso. revert H. apply not_in_header_warnings. discriminate.
      * destruct H as [(sc' & E & Hm & _) | [[_ H] | [[_ H] | [_ H]]]];
          try (apply (f_equal initial) in H; discriminate).
        inversion E; subst. assumption.
      * exfalso. destruct (blank_line_ok (lines_of message)); [|destruct H].
        revert H. apply not_in_body_warnings. discriminate.
      * exfalso. revert H. apply not_in_quality_warnings; discriminate.
    + intros H. right. left. left. eauto.
  - exact (contains_app [] (lit "Unknown scope")
             (lit " '" ++ sc ++ lit "'. Consider using: "
              ++ join (lit ", ") (sorted VALID_SCOPES))).
Qed.

Lemma X6_witness :
  exists E W st',
    validate_commit_message (U := ascii_only)
      (lit "feat(unknown): add new feature") (Validator [] [])
    = Ok ((true, E, W), st')
    /\ In (unknown_scope_message (lit "unknown")) W.
Proof.
  destruct (X6_unknown_scope_warning (U := ascii_only)
              (lit "feat(unknown): add new feature") (Validator [] [])
              (ty := lit "feat") (sc := lit "unknown") false
              (d := lit "add new feature"))
    as (E & W & st' & Hv & Hiff & _).
  - vm_compute. lia.
  - vm_compute. reflexivity.
  - vm_compute. reflexivity.
  - repeat split; try discriminate; try reflexivity.
    vm_compute. intuition discriminate.
  - exists E, W, st'. split; [exact Hv|]. apply (proj2 Hiff). vm_compute. reflexivity.
Defined.

(** X7: on such a message the breaking-change warning is given exactly
    when the header has the [!] marker. *)
Theorem X7_breaking_change_warning {U : UnicodeData}
    (message : str) (st : validator)
    (ty : str) (scope : option str) (breaking : bool) (d : str) :
  length (header_of message) <= 72 ->
  header_of message = compose_header ty scope breaking d ->
  mem (map ascii_lower ty) (keys VALID_TYPES) = true ->
  well_formed_fields ty scope d ->
  exists E W st',
    validate_commit_message message st
    = Ok ((blank_line_ok (lines_of message), E, W), st')
    /\ (In (lit "Breaking change detected - ensure CHANGELOG.md is updated") W
        <-> breaking = true).
Proof.
  intros Hlen Eh Hty Hwf.
  rewrite (conventional_message_result message st breaking Hlen Eh Hty Hwf).
  do 3 eexists. split; [reflexivity|].
  rewrite !in_app_iff, in_type_scope_warnings. split.
  - intros [H | [H | [H | H]]].
    + exfalso. revert H. apply not_in_header_warnings. discriminate.
    + destruct H as [(sc' & _ & _ & H) | [[_ H] | [[_ H] | [H _]]]];
        try (apply (f_equal initial) in H; discriminate);
        try discriminate.
      assumption.
    + exfalso. destruct (blank_line_ok (lines_of message)); [|destruct H].
      revert H. apply not_in_body_warnings. discriminate.
    + exfalso. revert H. apply not_in_quality_warnings; discriminate.
  - intros H. right. left. do 3 right. auto.
Qed.

Lemma X7_witness :
  exists E W st',
    validate_commit_message (U := ascii_only)
      (lit "feat(api)!: remove deprecated endpoints") (Validator [] [])
    = Ok ((true, E, W), st')
    /\ In (lit "Breaking change detected - ensure CHANGELOG.md is updated") W.
Proof.
  destruct (X7_breaking_change_warning (U := ascii_only)
              (lit "feat(api)!: remove deprecated endpoints")
              (Validator [] [])
              (ty := lit "feat") (scope := Some (lit "api")) true
              (d := lit "remove deprecated endpoints"))
    as (E & W & st' & Hv & Hiff).
  - vm_compute. lia.
  - vm_compute. reflexivity.
  - vm_compute. reflexivity.
  - repeat split; try discriminate; try reflexivity.
    vm_compute. intuition discriminate.
  - exists E, W, st'. split; [exact Hv|]. apply (proj2 Hiff). reflexivity.
Defined.

(** X8: when the format check accepts the header (of at most 72
    characters) and the second line is blank, every later line of more
    than 72 characters is reported in a warning that carries its 1-based
    line number and its length. *)
Theorem X8_long_body_lines_reported {U : UnicodeData}
    (message : str) (st : validator) (k : nat) (line : str) :
  length (header_of message) <= 72 ->
  re_match format_pattern (header_of message) true <> None ->
  blank_line_ok (lines_of message) = true ->
  nth_error (lines_of message) (2 + k) = Some line ->
  72 < length line ->
  exists is_valid E W st',
    validate_commit_message message st = Ok ((is_valid, E, W), st')
    /\ In (lit "Line " ++ str_of_nat (3 + k) ++ lit " too long: "
           ++ str_of_nat (length line) ++ lit " chars (recommended: "
           ++ LE_SIGN ++ lit "72)") W.
Proof.
  intros Hlen Hf Hsep Hnth Hlong.
  apply (@format_match_compose U _ (header_no_nl message)) in Hf
    as (ty & scope & breaking & d & Eh & Htok & Hwf).
  rewrite (accepted_message_result message st breaking Hlen Eh Htok Hwf).
  do 4 eexists. split; [reflexivity|]. rewrite Hsep.
  rewrite !in_app_iff. right. right. left.
  unfold body_warnings. apply in_flat_map. exists (3 + k, line). split.
  - apply enumerate_nth. rewrite nth_error_skipn. exact Hnth.
  - cbn [fst snd].
    replace (Nat.ltb 72 (length line)) with true
      by (symmetry; apply Nat.ltb_lt; assumption).
    left. reflexivity.
Qed.

Lemma X8_witness :
  exists is_valid E W st',
    validate_commit_message (U := ascii_only)
      (lit "fix: bug" ++ [NL; NL] ++ lit "ok" ++ [NL] ++ repeat (chr "x") 80)
      (Validator [] [])
    = Ok ((is_valid, E, W), st')
    /\ In (lit "Line 4 too long: 80 chars (recommended: " ++ LE_SIGN
           ++ lit "72)") W.
Proof.
  apply (X8_long_body_lines_reported (U := ascii_only)
           (lit "fix: bug" ++ [NL; NL] ++ lit "ok" ++ [NL]
            ++ repeat (chr "x") 80)
           (Validator [] []) 1 (line := repeat (chr "x") 80)).
  - vm_compute. lia.
  - vm_compute. discriminate.
  - vm_compute. reflexivity.
  - vm_compute. reflexivity.
  - vm_compute. lia.
Defined.

(** X9: a message with a well-formed header of at most 72 characters, a
    valid type and a blank second line is valid, and it draws no warning at
    all exactly when: the header has at most 50 characters; the scope, if
    any, is a known one; the description does not start with an uppercase
    letter, does not end with a period, is not a vague word, has at least
    10 characters once stripped and starts with an imperative verb of the
    list; there is no [!]; and no line after the second has more than 72
    characters. *)
Theorem X9_no_warnings {U : UnicodeData}
    (message : str) (st : validator)
    (ty : str) (scope : option str) (breaking : bool) (d : str) :
  length (header_of message) <= 72 ->
  header_of message = compose_header ty scope breaking d ->
  mem (map ascii_lower ty) (keys VALID_TYPES) = true ->
  well_formed_fields ty scope d ->
  blank_line_ok (lines_of message) = true ->
  exists W,
    validate_commit_message message st = Ok ((true, [], W), Validator [] W)
    /\ (W = []
        <-> length (header_of message) <= 50
            /\ match scope with
               | Some sc => mem sc VALID_SCOPES = true
               | None => True
               end
            /\ match d with ch :: _ => isupper ch | [] => false end = false
            /\ endswith d (lit ".") = false
            /\ breaking = false
            /\ Forall (fun line => length line <= 72)
                 (skipn 2 (lines_of message))
            /\ mem (strip (lower (strip d))) vague_words = false
            /\ 10 <= length (strip d)
            /\ mem (first_word (strip d)) imperative_indicators = true).
Proof.
  intros Hlen Eh Hty Hwf Hsep.
  rewrite (conventional_message_result message st breaking Hlen Eh Hty Hwf).
  rewrite Hsep. eexists. split; [reflexivity|].
  assert (H1 : forall (c : bool) (x : str),
             (if c then [x] else []) = [] <-> c = false).
  { intros [] x; split; congruence. }
  assert (H2 : forall a b : list str, a ++ b = [] <-> a = [] /\ b = []).
  { intros a b. split; [apply app_eq_nil | intros [-> ->]; reflexivity]. }
  unfold header_warnings, type_scope_warnings, quality_warnings.
  rewrite !H2, !H1, body_warnings_nil, negb_false_iff,
    Nat.ltb_ge, Nat.ltb_ge.
  assert (H0 : match scope with
               | Some sc => if negb (mem sc VALID_SCOPES)
                            then [unknown_scope_message sc] else []
               | None => []
               end = []
               <-> match scope with
                   | Some sc => mem sc VALID_SCOPES = true
                   | None => True
                   end).
  { destruct scope as [sc|]; [|tauto].
    rewrite H1, negb_false_iff. tauto. }
  rewrite H0. tauto.
Qed.

Lemma X9_witness :
  validate_commit_message (U := ascii_only)
    (lit "feat(cli): add complexity analysis command" ++ [NL; NL]
     ++ lit "Closes #123")
    (Validator [] [])
  = Ok ((true, [], []), Validator [] []).
Proof.
  destruct (X9_no_warnings (U := ascii_only)
              (lit "feat(cli): add complexity analysis command" ++ [NL; NL]
               ++ lit "Closes #123")
              (Validator [] [])
              (ty := lit "feat") (scope := Some (lit "cli")) false
              (d := lit "add complexity analysis command"))
    as (W & Hv & Hiff).
  - vm_compute. lia.
  - vm_compute. reflexivity.
  - vm_compute. reflexivity.
  - repeat split; try discriminate; try reflexivity.
    vm_compute. intuition discriminate.
  - vm_compute. reflexivity.
  - rewrite Hv. replace W with (@nil str); [reflexivity|].
    symmetry. apply (proj2 Hiff).
    split; [vm_compute; lia|].
    do 4 (split; [vm_compute; reflexivity|]).
    split; [vm_compute; repeat constructor|].
    split; [vm_compute; reflexivity|].
    split; [vm_compute; lia | vm_compute; reflexivity].
Defined.

(** * The command line *)

Lemma io_for_print A (l : list A) (f : A -> str) (out : list str) :
  io_for l (fun x => print (f x)) out = (out ++ map f l, inl tt).
Proof.
  revert out. induction l as [|x l IH]; intros out; cbn [io_for map].
  - rewrite app_nil_r. reflexivity.
  - unfold io_bind, print at 1. rewrite IH, <- app_assoc. reflexivity.
Qed.

Section MainFacts.
Context {U : UnicodeData}.

Lemma validate_total (message : str) :
  exists b E W, validate message = Ok (b, E, W).
Proof.
  unfold validate. destruct (strip message) eqn:Es.
  - rewrite (validate_commit_message_blank message _ Es). eauto.
  - assert (Hne : strip message <> []) by congruence.
    destruct (validate_commit_message_spec message (Validator [] []) Hne)
      as (fb & fE & fW & _ & H).
    destruct fb; [|rewrite H; eauto].
    destruct H as (tb & tE & tW & bb & bE & bW & qb & qE & qW
                   & _ & _ & _ & ->). eauto.
Qed.

Lemma validate_nonblank_warnings (message : str) (b : bool) (E W : list str) :
  validate message = Ok (b, E, W) -> strip message = [] -> b = false.
Proof.
  unfold validate. intros Hv Es.
  rewrite (validate_commit_message_blank message _ Es) in Hv. congruence.
Qed.

(** What [main] does once the message is read. *)
Lemma main_after_read (w : world) (message : str) (b : bool) (E W : list str) :
  mem (lit "--help") (argv w) = false -> mem (lit "-h") (argv w) = false ->
  read_commit_message w (commit_msg_file w) [] = ([], inl message) ->
  validate message = Ok (b, E, W) ->
  run_main w
  = if is_empty (strip message) then
      ([no_message_line; help_hint_line], Exit 1)
    else if b && is_empty W then ([valid_line], Exit 0)
    else ([results_line; repeat (chr "=") 50]
          ++ (if is_empty E then []
              else errors_heading :: map (fun e => BULLET ++ e) E)
          ++ (if is_empty W then []
              else warnings_heading :: map (fun x => BULLET ++ x) W)
          ++ (if b then [valid_with_warnings_line]
              else [failed_line; help_hint_line]),
          Exit (if b then 0 else 1)).
Proof.
  intros H1 H2 Hread Hv. unfold run_main, main.
  rewrite H1, H2. cbn [orb]. unfold io_bind at 1. cbn [io_ret].
  unfold io_bind at 1. rewrite Hread.
  destruct (is_empty (strip message)); [reflexivity|].
  unfold io_bind at 1. cbn [io_ret]. unfold io_bind at 1. rewrite Hv.
  cbn [io_ret fst snd].
  destruct (b && is_empty W) eqn:Hclean; [reflexivity|].
  pose proof (fun l out => io_for_print l (fun x => BULLET ++ x) out) as Hfor.
  unfold io_bind, io_ret, sys_exit, print in *.
  destruct E as [|e E], W as [|x W], b; cbn [is_empty negb app];
    try discriminate;
    rewrite ?Hfor; cbn [app map];
    rewrite <- ?app_assoc; reflexivity.
Qed.

End MainFacts.







(** X13: when the first argument names an existing file, the message is
    read from it and the standard input has no influence: two worlds that
    differ only in their standard input give the same output and status. *)
Theorem X13_file_before_stdin {U : UnicodeData} (w1 w2 : world) (p : str) :
  argv w1 = argv w2 ->
  nth_error (argv w1) 1 = Some p -> p <> [] ->
  path_exists w1 p = true -> path_exists w2 p = true ->
  read_file w1 p = read_file w2 p ->
  run_main w1 = run_main w2.
Proof.
  intros Hargv Hnth Hp He1 He2 Hread.
  assert (Hfile : forall w, argv w = argv w1 -> commit_msg_file w = Some p).
  { intros w Hw. unfold commit_msg_file. rewrite Hw, Hnth.
    replace (Nat.ltb 1 (length (argv w1))) with true; [reflexivity|].
    symmetry. apply Nat.ltb_lt. apply nth_error_Some. congruence. }
  assert (Hrc : forall w, argv w = argv w1 -> path_exists w p = true ->
                read_commit_message w (commit_msg_file w)
                = match read_file w p with
                  | Some content => io_ret content
                  | None => io_raise
                  end).
  { intros w Hw He. rewrite (Hfile w Hw). unfold read_commit_message.
    rewrite He. destruct p; [congruence | reflexivity]. }
  unfold run_main, main.
  rewrite (Hrc w1 eq_refl He1), (Hrc w2 (eq_sym Hargv) He2), Hargv, Hread.
  reflexivity.
Qed.

Lemma X13_witness :
  run_main (U := ascii_only)
    (World [lit "prog"; lit "msgfile"] (fun _ => true)
       (fun _ => Some (lit "fix: bug")) false (Some (lit "garbage")))
  = run_main (U := ascii_only)
      (World [lit "prog"; lit "msgfile"] (fun _ => true)
         (fun _ => Some (lit "fix: bug")) true None).
Proof.
  apply (X13_file_before_stdin (U := ascii_only)
           (World [lit "prog"; lit "msgfile"] (fun _ => true)
              (fun _ => Some (lit "fix: bug")) false (Some (lit "garbage")))
           (World [lit "prog"; lit "msgfile"] (fun _ => true)
              (fun _ => Some (lit "fix: bug")) true None)
           (p := lit "msgfile"));
    try reflexivity. discriminate.
Defined.
